(** * WGT calculator: the angle factor and the four-step distance pipeline

    A shallow embedding of [calculator.py].  Python's [float] is the IEEE 754
    binary64 format, so the arithmetic is carried by Rocq's primitive floats
    (the same hardware operations, rounding to nearest even), and the
    properties that quantify over every double are proved through their
    specification [SpecFloat].  The record of intermediate steps is a Python
    [dict], kept here as an insertion-ordered association list, and a
    [ZeroDivisionError] is an explicit outcome next to the returned value. *)

From Stdlib Require Import ZArith Reals Lra Lia Psatz Bool List String Ascii.
From Stdlib Require Import Floats.
Import ListNotations.

Set Warnings "-inexact-float,-register-all".

Local Open Scope float_scope.

(** ** Python values and exceptions *)

Inductive exn : Set :=
| ZeroDivisionError (msg : string).

Inductive result (A : Type) : Type :=
| Ok (a : A)
| Raise (e : exn).

Arguments Ok {A} a.
Arguments Raise {A} e.

Definition bind {A B : Type} (m : result A) (k : A -> result B) : result B :=
  match m with
  | Ok a => k a
  | Raise e => Raise e
  end.

Notation "x <- m ;; k" := (bind m (fun x => k))
  (at level 61, m at next level, right associativity).

(** The values stored in the result dictionary. *)
Inductive pyval : Type :=
| PFloat (f : float)
| PStr (s : string)
| PDict (d : list (string * pyval)).

Definition dict : Type := list (string * pyval).

Fixpoint dict_get (d : dict) (k : string) : option pyval :=
  match d with
  | [] => None
  | (k', v) :: d' => if String.eqb k' k then Some v else dict_get d' k
  end.

(** [d[k] = v]: an existing key keeps its position, a new key goes last. *)
Fixpoint dict_set (d : dict) (k : string) (v : pyval) : dict :=
  match d with
  | [] => [(k, v)]
  | (k', v') :: d' =>
      if String.eqb k' k then (k', v) :: d' else (k', v') :: dict_set d' k v
  end.

Definition dict_has (d : dict) (k : string) : bool :=
  match dict_get d k with Some _ => true | None => false end.

(** ** Float operations as Python performs them *)

Module PyFloat.

(** C's [fmod], which CPython calls for [%]: not a number for a dividend
    that is not finite or a zero divisor, the dividend itself when it is zero
    or the divisor is infinite, and otherwise the exact remainder of the two
    mantissas aligned to the smaller exponent, with the sign of the dividend. *)
Definition SFfmod (x y : spec_float) : spec_float :=
  match x, y with
  | S754_nan, _ | _, S754_nan => S754_nan
  | S754_infinity _, _ => S754_nan
  | _, S754_zero _ => S754_nan
  | S754_zero _, _ => x
  | S754_finite _ _ _, S754_infinity _ => x
  | S754_finite sx mx ex, S754_finite _ my ey =>
      let ez := Z.min ex ey in
      let X := (Zpos mx * 2 ^ (ex - ez))%Z in
      let Y := (Zpos my * 2 ^ (ey - ez))%Z in
      binary_normalize prec emax (cond_Zopp sx (X mod Y)) ez sx
  end.

Definition fmod (x y : float) : float := SF2Prim (SFfmod (Prim2SF x) (Prim2SF y)).

(** [copysign(x, y)] of the C library. *)
Definition copysign (x y : float) : float :=
  if get_sign y then - (abs x) else abs x.

(** [vx % wx] of CPython's [float_rem]: [fmod], moved by one divisor when
    its sign differs from the divisor's, and a zero of the divisor's sign
    when the remainder is zero. *)
Definition rem (vx wx : float) : result float :=
  if wx =? 0 then Raise (ZeroDivisionError "float modulo")
  else
    let mod_ := fmod vx wx in
    Ok (if negb (mod_ =? 0) then
          if xorb (wx <? 0) (mod_ <? 0) then mod_ + wx else mod_
        else copysign 0 wx).

(** [a / b] of CPython's [float_div]: only a zero divisor raises. *)
Definition truediv (a b : float) : result float :=
  if b =? 0 then Raise (ZeroDivisionError "float division by zero")
  else Ok (a / b).

End PyFloat.

(** [str.lower], on strings of bytes: the letters A to Z are lowered and
    every other byte is kept.  The two words the program compares with are
    made of ASCII letters only, and no character outside ASCII lowers to one
    of them, so the comparisons below decide as Python's do. *)
Definition lower_ascii (c : ascii) : ascii :=
  let n := nat_of_ascii c in
  if (65 <=? n)%nat && (n <=? 90)%nat then ascii_of_nat (n + 32) else c.

Fixpoint lower (s : string) : string :=
  match s with
  | EmptyString => EmptyString
  | String c s' => String (lower_ascii c) (lower s')
  end.

(** ** The program *)

(** The four formulas of [calculate_angle_factor], one per branch of its
    [if], named after the quadrant.  The integer literals meet a float in
    every operation, where Python converts them exactly. *)
Definition quadrant_1 (normalized_angle : float) : result float :=
  q <- PyFloat.truediv normalized_angle 90 ;;
  Ok (1 - q * (1 - 0.1)).

Definition quadrant_2 (normalized_angle : float) : result float :=
  q <- PyFloat.truediv (normalized_angle - 90) 90 ;;
  Ok (0.1 + q * (1 - 0.1)).

Definition quadrant_3 (normalized_angle : float) : result float :=
  q <- PyFloat.truediv (normalized_angle - 180) 90 ;;
  Ok (1 - q * (1 - 0.1)).

Definition quadrant_4 (normalized_angle : float) : result float :=
  q <- PyFloat.truediv (normalized_angle - 270) 90 ;;
  Ok (0.1 + q * (1 - 0.1)).

Definition calculate_angle_factor (angle : float) : result float :=
  normalized_angle <- PyFloat.rem angle 360 ;;
  if (0 <=? normalized_angle) && (normalized_angle <=? 90) then
    quadrant_1 normalized_angle
  else if (90 <? normalized_angle) && (normalized_angle <=? 180) then
    quadrant_2 normalized_angle
  else if (180 <? normalized_angle) && (normalized_angle <=? 270) then
    quadrant_3 normalized_angle
  else
    quadrant_4 normalized_angle.

Definition invalid_wind_direction : string :=
  "Invalid wind direction. Please use 'headwind' or 'tailwind'.".

Section Steps.

(** The two renderings of a float inside the formula strings: [str(x)] for
    [{x}] and [format(x, '.4f')] for [{x:.4f}].  They are Python's own and
    only feed the strings shown to the user, so they stay parameters. *)
Variable float_str : float -> string.
Variable float_4f : float -> string.

Definition step_entry (formula : string) (res : float) : pyval :=
  PDict [("formula", PStr formula); ("result", PFloat res)]%string.

(** [distance], [wind] and [angle] are taken after their conversion by
    [float(...)], which is the identity on a float and exact on the small
    integers of the worked example. *)
Definition calculate_steps (distance wind angle : float) (wind_direction : string)
  : result dict :=
  let results : dict := [] in
  let step_1 := distance * wind in
  let results :=
    dict_set results "step_1"
      (step_entry (float_str distance ++ " * " ++ float_str wind) step_1) in
  angle_factor <- calculate_angle_factor angle ;;
  let results := dict_set results "angle_factor" (PFloat angle_factor) in
  match
    (if String.eqb (lower wind_direction) "tailwind" then Some 225
     else if String.eqb (lower wind_direction) "headwind" then Some 180
     else None)
  with
  | None => Ok [("error", PStr invalid_wind_direction)]%string
  | Some divisor =>
      step_2 <- PyFloat.truediv divisor angle_factor ;;
      let results :=
        dict_set results "step_2"
          (PDict [("divisor", PFloat divisor);
                  ("formula", PStr (float_str divisor ++ " / " ++ float_4f angle_factor));
                  ("result", PFloat step_2)]%string) in
      step_3 <- PyFloat.truediv step_1 step_2 ;;
      let results :=
        dict_set results "step_3"
          (step_entry (float_4f step_1 ++ " / " ++ float_4f step_2) step_3) in
      let adjusted_distance := 0 in
      let '(adjusted_distance, results) :=
        if String.eqb (lower wind_direction) "headwind" then
          let adjusted_distance := distance + step_3 in
          (adjusted_distance,
           dict_set results "step_4"
             (step_entry (float_str distance ++ " + " ++ float_4f step_3)
                adjusted_distance))
        else if String.eqb (lower wind_direction) "tailwind" then
          let adjusted_distance := distance - step_3 in
          (adjusted_distance,
           dict_set results "step_4"
             (step_entry (float_str distance ++ " - " ++ float_4f step_3)
                adjusted_distance))
        else (adjusted_distance, results) in
      Ok (dict_set results "adjusted_distance" (PFloat adjusted_distance))
  end.

End Steps.

(** ** Recognising a direction, reading a trace *)

(** ASCII comparison that ignores the case of letters. *)
Definition is_upper (n : nat) : bool := (65 <=? n)%nat && (n <=? 90)%nat.

Definition eq_nocase_ascii (a b : ascii) : bool :=
  let x := nat_of_ascii a in
  let y := nat_of_ascii b in
  (x =? y)%nat || (is_upper x && (y =? x + 32)%nat) || (is_upper y && (x =? y + 32)%nat).

Fixpoint eq_nocase (s t : string) : bool :=
  match s, t with
  | EmptyString, EmptyString => true
  | String a s', String b t' => eq_nocase_ascii a b && eq_nocase s' t'
  | _, _ => false
  end.

(** [d[k1][k2]], the entry of a step. *)
Definition dict_field (d : dict) (k1 k2 : string) : option pyval :=
  match dict_get d k1 with
  | Some (PDict e) => dict_get e k2
  | _ => None
  end.

(** The caller's test for the failure value: ["error" in results]. *)
Definition is_failure (r : result dict) : bool :=
  match r with
  | Ok d => dict_has d "error"
  | Raise _ => false
  end.

(** A rendering to instantiate the formula strings with, where a statement
    is evaluated on concrete inputs. *)
Definition no_render (x : float) : string := EmptyString.

(** The least value the angle factor takes: [1 - 0.9] as binary64 computes
    it, one unit in the last place of 0.1 below 0.1. *)
Definition factor_floor : float := (1 - (1 - 0.1))%float.

(** ** Reading the keys of a result *)

(** [list(results)]: the keys in insertion order. *)
Definition dict_keys (d : dict) : list string := map fst d.

(** The keys of a full trace. *)
Definition trace_keys : list string :=
  ["step_1"; "angle_factor"; "step_2"; "step_3"; "step_4"; "adjusted_distance"]%string.

(** ** The results block of [main] *)

(** The Streamlit calls of the block that [main] runs once the form is
    submitted, each with the body it is given. *)
Inductive st_call : Type :=
| St_error (body : pyval)
| St_markdown (body : string)
| St_success (body : string)
| St_info (body : string)
| St_subheader (body : string).

(** What may end the block: an exception of the calculation, a missing key,
    or a value that [float(...)] does not take (a dictionary, or a string,
    kept in the exception, that does not read as a number). *)
Inductive py_exn : Type :=
| Arith (e : exn)
| KeyError (key : string)
| TypeError (msg : string)
| ValueError (arg : string).

(** A run of the page: the calls made so far, in order, and then a value
    or the exception that stopped it. *)
Definition page (A : Type) : Type := (list st_call * (A + py_exn))%type.

Definition page_ret {A : Type} (a : A) : page A := ([], inl a).

Definition page_raise {A : Type} (e : py_exn) : page A := ([], inr e).

Definition page_call (c : st_call) : page unit := ([c], inl tt).

Definition page_bind {A B : Type} (m : page A) (k : A -> page B) : page B :=
  match m with
  | (calls, inl a) => let '(calls', r) := k a in (calls ++ calls', r)
  | (calls, inr e) => (calls, inr e)
  end.

Definition page_of {A : Type} (r : result A) : page A :=
  match r with
  | Ok a => page_ret a
  | Raise e => page_raise (Arith e)
  end.

Notation "x <~ m ;; k" := (page_bind m (fun x => k))
  (at level 61, m at next level, right associativity).

(** [d[k]] *)
Definition subscript (d : dict) (k : string) : page pyval :=
  match dict_get d k with
  | Some v => page_ret v
  | None => page_raise (KeyError k)
  end.

(** The line feed of a triple-quoted string. *)
Definition LF : string := String (ascii_of_nat 10) EmptyString.

Section Main.

Variable float_str : float -> string.
Variable float_4f : float -> string.

(** [format(x, '.2f')] and [format(x, '.1f')], and the parsing of a string
    by [float(...)], which answers nothing where Python raises. *)
Variable float_2f : float -> string.
Variable float_1f : float -> string.
Variable float_of_str : string -> option float.

(** [float(v)] *)
Definition py_float (v : pyval) : page float :=
  match v with
  | PFloat f => page_ret f
  | PStr s =>
      match float_of_str s with
      | Some f => page_ret f
      | None => page_raise (ValueError s)
      end
  | PDict _ =>
      page_raise
        (TypeError "float() argument must be a string or a real number, not 'dict'")
  end.

(** The body of [if submit_button:] in [main], on the four values of the
    form; the three numbers are the floats that [st.number_input] returns. *)
Definition main_submit (distance wind angle : float) (wind_direction : string)
  : page unit :=
  results <~ page_of (calculate_steps float_str float_4f distance wind angle
                        wind_direction) ;;
  if dict_has results "error" then
    body <~ subscript results "error" ;;
    page_call (St_error body)
  else
    _ <~ page_call (St_markdown "---") ;;
    v <~ subscript results "adjusted_distance" ;;
    adjusted_result <~ py_float v ;;
    _ <~ page_call
           (St_success ("### Adjusted Distance: " ++ float_2f adjusted_result
                          ++ " yards")) ;;
    v <~ subscript results "adjusted_distance" ;;
    adjusted_distance <~ py_float v ;;
    let distance_float := distance in
    let difference := abs (adjusted_distance - distance_float) in
    q <~ page_of (PyFloat.truediv difference distance_float) ;;
    let percent_change := q * 100 in
    let adjusted_dist_str := float_2f adjusted_distance in
    let distance_str := float_2f distance_float in
    _ <~ page_call
           (St_info
              (LF ++ "            **Original Distance:** " ++ distance_str
                  ++ " yards  " ++ LF
                  ++ "            **Adjustment:** " ++ float_2f difference
                  ++ " yards (" ++ float_1f percent_change ++ "%)  " ++ LF
                  ++ "            **Adjusted Distance:** " ++ adjusted_dist_str
                  ++ " yards" ++ LF ++ "            ")) ;;
    page_call (St_subheader "-𝘔𝘢𝘥𝘦 𝘣𝘺 𝘎𝘢𝘣𝘦⛳").

End Main.

(** * Binary64 rounding, read over the reals

    The definitions below give the real number a double stands for and the
    relation between a real and the double that [SpecFloat] rounds it to. *)

Local Close Scope float_scope.
Local Open Scope R_scope.

(** The power of two and the real [m * 2^e] of a mantissa and an exponent. *)
Definition p2 (e : Z) : R := powerRZ 2 e.

Definition F2R (m e : Z) : R := IZR m * p2 e.

(** The real [x] lies in the interval from [m * 2^e] to [(m+1) * 2^e], at
    the place the location says: on its lower end, or strictly inside and
    below, at, or above the middle. *)
Definition inbetween (m e : Z) (l : location) (x : R) : Prop :=
  match l with
  | loc_Exact => x = F2R m e
  | loc_Inexact c =>
      F2R m e < x < F2R (m + 1) e /\
      match c with
      | Lt => 2 * x < F2R (2 * m + 1) e
      | Eq => 2 * x = F2R (2 * m + 1) e
      | Gt => F2R (2 * m + 1) e < 2 * x
      end
  end.

(** The real [x] sits in the slot of mantissa [M] at the exponent [E] its
    magnitude calls for in binary64. *)
Definition slot (x : R) (M E : Z) (l : location) : Prop :=
  (0 <= M < 2 ^ 53)%Z /\ (-1074 <= E)%Z /\
  ((-1074 < E)%Z -> (2 ^ 52 <= M)%Z) /\
  inbetween M E l x.

(** The second half of [binary_round_aux]: renormalise the rounded mantissa
    and detect overflow. *)
Definition finish (M E : Z) : spec_float :=
  let '(mrs, e) := shr_fexp prec emax M E loc_Exact in
  match shr_m mrs with
  | Z0 => S754_zero false
  | Zpos m => if (e <=? emax - prec)%Z then S754_finite false m e else S754_infinity false
  | Zneg _ => S754_nan
  end.

(** What [finish] returns on a mantissa of at most 54 bits (lemma
    [finish_packed]): the number itself, the next power of two when the
    rounding carried, or infinity past the largest exponent. *)
Definition packed (M E : Z) : spec_float :=
  if (M =? 0)%Z then S754_zero false
  else if (M <? 2 ^ 53)%Z then
    if (E <=? 971)%Z then S754_finite false (Z.to_pos M) E else S754_infinity false
  else
    if (E + 1 <=? 971)%Z then S754_finite false (Z.to_pos (2 ^ 52)) (E + 1)
    else S754_infinity false.

(** A rounded mantissa and its exponent, before renormalisation. *)
Definition roundable (M E : Z) : Prop :=
  (0 <= M <= 2 ^ 53)%Z /\ (-1074 <= E)%Z /\ ((-1074 < E)%Z -> (2 ^ 52 <= M)%Z).

(** [rounds x f]: [f] is what binary64 rounding makes of the real [x >= 0],
    reached through any faithful mantissa, exponent and location. *)
Definition rounds (x : R) (f : spec_float) : Prop :=
  exists m e l,
    (0 <= m)%Z /\ inbetween m e l x /\
    (e <= fexp prec emax (Zdigits2 m + e))%Z /\
    f = binary_round_aux prec emax false m e l.

(** The real a double stands for, zero for the infinities and NaN. *)
Definition B2R (f : spec_float) : R :=
  match f with
  | S754_finite s m e => F2R (cond_Zopp s (Zpos m)) e
  | _ => 0
  end.

(** The mantissa and exponent of a valid finite binary64 number: 53 bits
    at most, all 53 above the least exponent. *)
Definition canon (M E : Z) : Prop :=
  (0 < M < 2 ^ 53)%Z /\ (-1074 <= E <= 971)%Z /\
  ((-1074 < E)%Z -> (2 ^ 52 <= M)%Z).

(** Zero of either sign, or a positive finite number. *)
Definition nonneg_finite (f : spec_float) : bool :=
  match f with
  | S754_zero _ => true
  | S754_finite s _ _ => negb s
  | _ => false
  end.

(** [rounds], with the zero of either sign for the real zero: what an
    operation on nonnegative operands returns. *)
Definition rounds0 (x : R) (f : spec_float) : Prop :=
  rounds x f \/ (x = 0 /\ exists s, f = S754_zero s).

(** The real value of a double, and the doubles that are zero or positive
    and finite. *)
Definition val (x : float) : R := B2R (Prim2SF x).

Definition fin_nonneg (x : float) : bool := nonneg_finite (Prim2SF x).

(** Positive and finite. *)
Definition fin_pos (x : float) : bool :=
  match Prim2SF x with
  | S754_finite s _ _ => negb s
  | _ => false
  end.

(** [z] is zero or positive and finite, between [a] and [b]. *)
Definition in_range (a b z : float) : Prop :=
  fin_nonneg z = true /\ val a <= val z <= val b.

(** Finite, of either sign. *)
Definition fin_any (x : float) : bool :=
  match Prim2SF x with
  | S754_zero _ | S754_finite _ _ _ => true
  | _ => false
  end.

(** The double 360.0, [6333186975989760 * 2^-44]. *)
Definition Y360 : spec_float := S754_finite false 6333186975989760 (-44).

(** Zero, a positive finite number, or plus infinity. *)
Definition nonneg_ext (f : spec_float) : bool :=
  match f with
  | S754_zero _ => true
  | S754_infinity s => negb s
  | S754_nan => false
  | S754_finite s _ _ => negb s
  end.

Definition ext_nonneg (x : float) : bool := nonneg_ext (Prim2SF x).

(** * Lemmas

    ** Powers of two and binary digits *)

Lemma p2_pos e : 0 < p2 e.
Proof. apply powerRZ_lt. lra. Qed.

Lemma p2_add a b : p2 (a + b) = p2 a * p2 b.
Proof. apply powerRZ_add. lra. Qed.

Lemma p2_succ e : p2 (e + 1) = 2 * p2 e.
Proof. rewrite p2_add. unfold p2 at 2. simpl. lra. Qed.

Lemma p2_Z k : (0 <= k)%Z -> p2 k = IZR (2 ^ k).
Proof.
  intros Hk. unfold p2.
  rewrite <- (Z2Nat.id k Hk), <- pow_powerRZ, pow_IZR. reflexivity.
Qed.

Lemma p2_ge_1 k : (0 <= k)%Z -> 1 <= p2 k.
Proof.
  intros Hk. rewrite p2_Z by assumption. apply IZR_le.
  assert (0 < 2 ^ k)%Z by (apply Z.pow_pos_nonneg; lia). lia.
Qed.

Lemma p2_le a b : (a <= b)%Z -> p2 a <= p2 b.
Proof.
  intros H. replace b with (a + (b - a))%Z by lia. rewrite p2_add.
  pose proof (p2_pos a). pose proof (p2_ge_1 (b - a) ltac:(lia)). nra.
Qed.

Lemma digits2_pos_bounds p :
  (2 ^ (Zpos (digits2_pos p) - 1) <= Zpos p < 2 ^ Zpos (digits2_pos p))%Z.
Proof.
  induction p as [p IH|p IH|]; cbn [digits2_pos].
  - rewrite Pos2Z.inj_succ, Z.pow_succ_r by lia.
    replace (Z.succ (Zpos (digits2_pos p)) - 1)%Z
      with (Z.succ (Zpos (digits2_pos p) - 1)) by lia.
    rewrite Z.pow_succ_r by lia. lia.
  - rewrite Pos2Z.inj_succ, Z.pow_succ_r by lia.
    replace (Z.succ (Zpos (digits2_pos p)) - 1)%Z
      with (Z.succ (Zpos (digits2_pos p) - 1)) by lia.
    rewrite Z.pow_succ_r by lia. lia.
  - cbn. lia.
Qed.

Lemma p2_neg_pos k : p2 (Zneg k) = / IZR (2 ^ Zpos k).
Proof.
  change (Zneg k) with (- Zpos k)%Z. unfold p2.
  rewrite powerRZ_neg'. f_equal. apply p2_Z. lia.
Qed.

(** Tactics that evaluate a closed double to its specification and the
    powers of two in its value. *)

Ltac spec_of c :=
  let v := eval vm_compute in (Prim2SF c) in
  change (Prim2SF c) with v.

Ltac p2_consts :=
  repeat match goal with
    | |- context [p2 (Zneg ?k)] =>
        rewrite (p2_neg_pos k);
        let v := eval vm_compute in (2 ^ Zpos k)%Z in
        change (2 ^ Zpos k)%Z with v
    end.

Ltac val_const c :=
  unfold val; spec_of c; cbn [B2R cond_Zopp Z.opp]; unfold F2R; p2_consts;
  try (rewrite Rmult_0_l; reflexivity); try lra.

(** ** Shifting a mantissa right keeps the real in its slot *)

Lemma inbetween_bounds m e l x :
  inbetween m e l x -> F2R m e <= x < F2R (m + 1) e.
Proof.
  unfold inbetween, F2R. destruct l as [|c].
  - intros ->. rewrite plus_IZR. pose proof (p2_pos e). lra.
  - intros [H _]. lra.
Qed.

Lemma shr_1_inbetween mrs e x :
  (0 <= shr_m mrs)%Z ->
  inbetween (shr_m mrs) e (loc_of_shr_record mrs) x ->
  (0 <= shr_m (shr_1 mrs))%Z /\
  inbetween (shr_m (shr_1 mrs)) (e + 1) (loc_of_shr_record (shr_1 mrs)) x.
Proof.
  destruct mrs as [m r s]. cbn [shr_m]. intros Hm H.
  destruct m as [|p|p]; [| |lia].
  - split; [cbn; lia|].
    destruct r, s; cbn [shr_1 orb shr_m loc_of_shr_record inbetween] in *;
      unfold F2R in *; rewrite p2_succ;
      rewrite ?plus_IZR, ?mult_IZR in *; pose proof (p2_pos e); lra.
  - destruct p as [p|p|]; (split; [cbn; lia|]);
      [change (Zpos p~1) with (2 * Zpos p + 1)%Z in H
      |change (Zpos p~0) with (2 * Zpos p)%Z in H
      |];
      destruct r, s; cbn [shr_1 orb shr_m loc_of_shr_record inbetween] in *;
      unfold F2R in *; rewrite p2_succ;
      rewrite ?plus_IZR, ?mult_IZR in *; pose proof (p2_pos e); lra.
Qed.

Lemma iter_shr_1_inbetween n : forall mrs e x,
  (0 <= shr_m mrs)%Z ->
  inbetween (shr_m mrs) e (loc_of_shr_record mrs) x ->
  (0 <= shr_m (iter_pos shr_1 n mrs))%Z /\
  inbetween (shr_m (iter_pos shr_1 n mrs)) (e + Zpos n)
    (loc_of_shr_record (iter_pos shr_1 n mrs)) x.
Proof.
  induction n as [n IH|n IH|]; intros mrs e x Hm H; cbn [iter_pos].
  - destruct (shr_1_inbetween _ _ _ Hm H) as [Hm1 H1].
    destruct (IH _ _ _ Hm1 H1) as [Hm2 H2].
    destruct (IH _ _ _ Hm2 H2) as [Hm3 H3].
    split; [assumption|].
    replace (e + Zpos n~1)%Z with (e + 1 + Zpos n + Zpos n)%Z by lia. assumption.
  - destruct (IH _ _ _ Hm H) as [Hm2 H2].
    destruct (IH _ _ _ Hm2 H2) as [Hm3 H3].
    split; [assumption|].
    replace (e + Zpos n~0)%Z with (e + Zpos n + Zpos n)%Z by lia. assumption.
  - apply shr_1_inbetween; assumption.
Qed.

Lemma loc_of_shr_record_of_loc m l :
  loc_of_shr_record (shr_record_of_loc m l) = l.
Proof. destruct l as [|[]]; reflexivity. Qed.

Lemma shr_m_shr_record_of_loc m l : shr_m (shr_record_of_loc m l) = m.
Proof. destruct l as [|[]]; reflexivity. Qed.

(** Shifting right by [n >= 0] keeps the represented real. *)
Lemma shr_inbetween m e l n x :
  (0 <= m)%Z -> (0 <= n)%Z -> inbetween m e l x ->
  let '(mrs, e') := shr (shr_record_of_loc m l) e n in
  e' = (e + n)%Z /\ (0 <= shr_m mrs)%Z /\
  inbetween (shr_m mrs) e' (loc_of_shr_record mrs) x.
Proof.
  intros Hm Hn H. unfold shr. destruct n as [|p|p]; [| |lia].
  - rewrite loc_of_shr_record_of_loc, shr_m_shr_record_of_loc.
    split; [lia|]. split; assumption.
  - split; [reflexivity|].
    apply iter_shr_1_inbetween.
    + rewrite shr_m_shr_record_of_loc. assumption.
    + rewrite loc_of_shr_record_of_loc, shr_m_shr_record_of_loc. assumption.
Qed.

(** ** The slot a real falls in after the first shift *)

Lemma fexp_eq e : fexp prec emax e = Z.max (e - 53) (-1074).
Proof. reflexivity. Qed.

Lemma Zdigits2_bounds m :
  (0 < m)%Z -> (2 ^ (Zdigits2 m - 1) <= m < 2 ^ Zdigits2 m)%Z /\ (0 < Zdigits2 m)%Z.
Proof.
  destruct m as [|p|p]; try lia. intros _. cbn [Zdigits2].
  split; [apply digits2_pos_bounds | lia].
Qed.

Lemma Zdigits2_le m k : (0 < m < 2 ^ k)%Z -> (0 <= k)%Z -> (Zdigits2 m <= k)%Z.
Proof.
  intros Hm Hk. destruct (Zdigits2_bounds m ltac:(lia)) as [[Hlo _] Hd].
  assert (2 ^ (Zdigits2 m - 1) < 2 ^ k)%Z as H by lia.
  apply Z.pow_lt_mono_r_iff in H; lia.
Qed.

Lemma Zdigits2_gt m k : (2 ^ k <= m)%Z -> (0 <= k)%Z -> (k < Zdigits2 m)%Z.
Proof.
  intros Hm Hk.
  assert (0 < 2 ^ k)%Z by (apply Z.pow_pos_nonneg; lia).
  destruct (Zdigits2_bounds m ltac:(lia)) as [[_ Hhi] Hd].
  assert (2 ^ k < 2 ^ Zdigits2 m)%Z as H' by lia.
  apply Z.pow_lt_mono_r_iff in H'; lia.
Qed.

Lemma F2R_lt_p2 M E k : (0 <= k)%Z -> F2R M E < p2 (E + k) -> (M < 2 ^ k)%Z.
Proof.
  intros Hk H. unfold F2R in H. rewrite p2_add, (p2_Z k Hk) in H.
  apply lt_IZR. pose proof (p2_pos E). nra.
Qed.

Lemma p2_lt_F2R M E k : (0 <= k)%Z -> p2 (E + k) < F2R M E -> (2 ^ k < M)%Z.
Proof.
  intros Hk H. unfold F2R in H. rewrite p2_add, (p2_Z k Hk) in H.
  apply lt_IZR. pose proof (p2_pos E). nra.
Qed.

Lemma F2R_le_p2 M E k : (0 <= k)%Z -> (M <= 2 ^ k)%Z -> F2R M E <= p2 (E + k).
Proof.
  intros Hk H. unfold F2R. rewrite p2_add, (p2_Z k Hk).
  apply IZR_le in H. pose proof (p2_pos E). nra.
Qed.

Lemma p2_le_F2R M E k : (0 <= k)%Z -> (2 ^ k <= M)%Z -> p2 (E + k) <= F2R M E.
Proof.
  intros Hk H. unfold F2R. rewrite p2_add, (p2_Z k Hk).
  apply IZR_le in H. pose proof (p2_pos E). nra.
Qed.

Lemma F2R_le_iff M1 M2 E : F2R M1 E <= F2R M2 E <-> (M1 <= M2)%Z.
Proof.
  unfold F2R. pose proof (p2_pos E). split; intros H'.
  - apply le_IZR. nra.
  - apply IZR_le in H'. nra.
Qed.

Lemma F2R_lt_iff M1 M2 E : F2R M1 E < F2R M2 E <-> (M1 < M2)%Z.
Proof.
  unfold F2R. pose proof (p2_pos E). split; intros H'.
  - apply lt_IZR. nra.
  - apply IZR_lt in H'. nra.
Qed.

Lemma shr_fexp_slot m e l x :
  (0 <= m)%Z -> inbetween m e l x ->
  (e <= fexp prec emax (Zdigits2 m + e))%Z ->
  let '(mrs, E) := shr_fexp prec emax m e l in
  slot x (shr_m mrs) E (loc_of_shr_record mrs).
Proof.
  intros Hm Hx He. unfold shr_fexp.
  pose proof (shr_inbetween m e l (fexp prec emax (Zdigits2 m + e) - e) x
                Hm ltac:(lia) Hx) as Hs.
  destruct (shr (shr_record_of_loc m l) e (fexp prec emax (Zdigits2 m + e) - e))
    as [mrs E].
  destruct Hs as (HE & HM & HI).
  assert (E = fexp prec emax (Zdigits2 m + e)) as HE' by lia. clear HE.
  rewrite fexp_eq in HE', He.
  pose proof (inbetween_bounds _ _ _ _ Hx) as [Hx1 Hx2].
  pose proof (inbetween_bounds _ _ _ _ HI) as [HI1 HI2].
  destruct (Z.eq_dec m 0) as [->|Hm0].
  - cbn [Zdigits2] in *.
    assert (E = -1074)%Z as -> by lia.
    assert (shr_m mrs < 2 ^ 0)%Z.
    { apply (F2R_lt_p2 _ (-1074)); [lia|].
      apply Rle_lt_trans with x; [assumption|].
      apply Rlt_le_trans with (F2R (0 + 1) e); [assumption|].
      unfold F2R. cbn [Z.add]. rewrite Rmult_1_l. apply p2_le. lia. }
    repeat split; try lia; assumption.
  - destruct (Zdigits2_bounds m ltac:(lia)) as [[Hd1 Hd2] Hd].
    assert (p2 (Zdigits2 m - 1 + e) <= x) as Hlo.
    { apply Rle_trans with (F2R m e); [|assumption].
      replace (Zdigits2 m - 1 + e)%Z with (e + (Zdigits2 m - 1))%Z by lia.
      apply p2_le_F2R; lia. }
    assert (x < p2 (Zdigits2 m + e)) as Hhi.
    { apply Rlt_le_trans with (F2R (m + 1) e); [assumption|].
      replace (Zdigits2 m + e)%Z with (e + Zdigits2 m)%Z by lia.
      apply F2R_le_p2; lia. }
    assert (shr_m mrs < 2 ^ 53)%Z.
    { apply (F2R_lt_p2 _ E); [lia|].
      apply Rle_lt_trans with x; [assumption|].
      apply Rlt_le_trans with (p2 (Zdigits2 m + e)); [assumption|].
      apply p2_le. lia. }
    repeat split; try lia; try assumption.
    intros HEm.
    assert (2 ^ 52 < shr_m mrs + 1)%Z; [|lia].
    apply (p2_lt_F2R _ E); [lia|].
    apply Rle_lt_trans with x; [|assumption].
    apply Rle_trans with (p2 (Zdigits2 m - 1 + e)); [|assumption].
    apply p2_le. lia.
Qed.

(** ** Renormalisation and overflow *)

Lemma binary_round_aux_finish mx ex lx :
  binary_round_aux prec emax false mx ex lx =
  let '(mrs, e) := shr_fexp prec emax mx ex lx in
  finish (round_nearest_even (shr_m mrs) (loc_of_shr_record mrs)) e.
Proof. reflexivity. Qed.

Lemma finish_packed M E : roundable M E -> finish M E = packed M E.
Proof.
  intros (HM & HE & Hn). unfold finish, packed, shr_fexp.
  destruct (Z.eqb_spec M 0) as [->|HM0].
  - cbn [Zdigits2 Z.add]. rewrite fexp_eq. unfold shr.
    destruct (Z.max (E - 53) (-1074) - E)%Z eqn:Hs; try reflexivity. lia.
  - destruct (Z.ltb_spec M (2 ^ 53)) as [Hlt|Hge].
    + assert (Zdigits2 M <= 53)%Z as Hd by (apply Zdigits2_le; lia).
      assert (-1074 < E -> 53 <= Zdigits2 M)%Z as Hd'.
      { intros H. specialize (Hn H). pose proof (Zdigits2_gt M 52 Hn ltac:(lia)). lia. }
      rewrite fexp_eq. unfold shr.
      destruct (Z.max (Zdigits2 M + E - 53) (-1074) - E)%Z eqn:Hs; try lia;
        cbn [shr_record_of_loc shr_m]; destruct M; try lia; reflexivity.
    + assert (M = 2 ^ 53)%Z as -> by lia.
      change (Zdigits2 (2 ^ 53)) with 54%Z. rewrite fexp_eq.
      replace (Z.max (54 + E - 53) (-1074) - E)%Z with 1%Z by lia.
      reflexivity.
Qed.

(** ** Rounding is monotone *)

Lemma SFleb_finite_pos m1 e1 m2 e2 :
  SFleb (S754_finite false m1 e1) (S754_finite false m2 e2) = true <->
  (e1 < e2 \/ (e1 = e2 /\ Zpos m1 <= Zpos m2))%Z.
Proof.
  unfold SFleb, SFcompare.
  destruct (Z.compare_spec e1 e2) as [He|He|He].
  - rewrite Pos.compare_cont_spec. cbn [Pos.switch_Eq].
    destruct (Pos.compare_spec m1 m2) as [Hm|Hm|Hm]; split; intros H;
      try reflexivity; try discriminate; lia.
  - split; [lia | reflexivity].
  - split; [discriminate | lia].
Qed.

Lemma SFltb_finite_pos m1 e1 m2 e2 :
  SFltb (S754_finite false m1 e1) (S754_finite false m2 e2) = true <->
  (e1 < e2 \/ (e1 = e2 /\ Zpos m1 < Zpos m2))%Z.
Proof.
  unfold SFltb, SFcompare.
  destruct (Z.compare_spec e1 e2) as [He|He|He].
  - rewrite Pos.compare_cont_spec. cbn [Pos.switch_Eq].
    destruct (Pos.compare_spec m1 m2) as [Hm|Hm|Hm]; split; intros H;
      try reflexivity; try discriminate; lia.
  - split; [lia | reflexivity].
  - split; [discriminate | lia].
Qed.

Lemma packed_mono M1 E1 M2 E2 :
  roundable M1 E1 -> roundable M2 E2 ->
  (E1 < E2 \/ (E1 = E2 /\ M1 <= M2))%Z ->
  SFleb (packed M1 E1) (packed M2 E2) = true.
Proof.
  intros (HM1 & HE1 & Hn1) (HM2 & HE2 & Hn2) Hle. unfold packed.
  assert (0 < 2 ^ 52)%Z by lia.
  destruct (Z.eqb_spec M1 0), (Z.eqb_spec M2 0),
    (Z.ltb_spec M1 (2 ^ 53)), (Z.ltb_spec M2 (2 ^ 53)),
    (Z.leb_spec E1 971), (Z.leb_spec E2 971),
    (Z.leb_spec (E1 + 1) 971), (Z.leb_spec (E2 + 1) 971);
    try lia; try reflexivity;
    apply SFleb_finite_pos; rewrite ?Z2Pos.id by lia; lia.
Qed.

Lemma round_nearest_even_range M l :
  (M <= round_nearest_even M l <= M + 1)%Z.
Proof. destruct l as [|[]]; cbn; try destruct (Z.even M); lia. Qed.

Lemma slot_roundable x M E l :
  slot x M E l -> roundable (round_nearest_even M l) E.
Proof.
  intros (HM & HE & Hn & _). pose proof (round_nearest_even_range M l).
  repeat split; lia.
Qed.

(** Rounding to nearest even is monotone on the slots. *)
Lemma slot_mono x y M1 E1 l1 M2 E2 l2 :
  slot x M1 E1 l1 -> slot y M2 E2 l2 -> x <= y ->
  (E1 < E2 \/
   (E1 = E2 /\ round_nearest_even M1 l1 <= round_nearest_even M2 l2))%Z.
Proof.
  intros (HM1 & HE1 & Hn1 & H1) (HM2 & HE2 & Hn2 & H2) Hxy.
  pose proof (inbetween_bounds _ _ _ _ H1) as [Hx1 Hx2].
  pose proof (inbetween_bounds _ _ _ _ H2) as [Hy1 Hy2].
  destruct (Z.lt_trichotomy E1 E2) as [Hlt|[Heq|Hgt]]; [left; assumption | |].
  - right. split; [assumption|]. subst E2.
    assert (M1 < M2 + 1)%Z as HM.
    { apply (F2R_lt_iff _ _ E1). lra. }
    pose proof (round_nearest_even_range M1 l1).
    pose proof (round_nearest_even_range M2 l2).
    destruct (Z.eq_dec M1 M2) as [->|Hne]; [|lia].
    unfold F2R in *. rewrite ?plus_IZR, ?mult_IZR in *.
    destruct l1 as [|[]], l2 as [|[]];
      cbn [round_nearest_even inbetween] in *; unfold F2R in *;
      rewrite ?plus_IZR, ?mult_IZR in *;
      try (destruct (Z.even M2)); try lia; exfalso; lra.
  - exfalso.
    assert (p2 (E2 + 53) <= F2R M1 E1).
    { apply Rle_trans with (p2 (E1 + 52)); [apply p2_le; lia|].
      apply p2_le_F2R; lia. }
    assert (F2R (M2 + 1) E2 <= p2 (E2 + 53)) by (apply F2R_le_p2; lia).
    lra.
Qed.

Lemma rounds_slot x f :
  rounds x f ->
  exists M E l, slot x M E l /\ f = packed (round_nearest_even M l) E.
Proof.
  intros (m & e & l & Hm & Hx & He & ->).
  rewrite binary_round_aux_finish.
  pose proof (shr_fexp_slot m e l x Hm Hx He) as Hs.
  destruct (shr_fexp prec emax m e l) as [mrs E].
  exists (shr_m mrs), E, (loc_of_shr_record mrs). split; [assumption|].
  apply finish_packed. eapply slot_roundable; eassumption.
Qed.

Theorem rounds_mono x y f g :
  rounds x f -> rounds y g -> x <= y -> SFleb f g = true.
Proof.
  intros Hf Hg Hxy.
  destruct (rounds_slot _ _ Hf) as (M1 & E1 & l1 & Hs1 & ->).
  destruct (rounds_slot _ _ Hg) as (M2 & E2 & l2 & Hs2 & ->).
  apply packed_mono.
  - eapply slot_roundable; eassumption.
  - eapply slot_roundable; eassumption.
  - eapply slot_mono; eassumption.
Qed.

(** ** Values, validity, and comparisons as comparisons of reals *)

Lemma valid_canon s m e :
  valid_binary (S754_finite s m e) = true <-> canon (Zpos m) e.
Proof.
  unfold valid_binary, SpecFloat.valid_binary, bounded, canonical_mantissa, canon.
  rewrite fexp_eq, andb_true_iff, Z.eqb_eq, Z.leb_le.
  change (emax - prec)%Z with 971%Z.
  change (Zpos (digits2_pos m)) with (Zdigits2 (Zpos m)).
  split.
  - intros [Hc He].
    assert (Zdigits2 (Zpos m) <= 53)%Z as Hd by lia.
    destruct (Zdigits2_bounds (Zpos m) ltac:(lia)) as [[Hlo Hhi] _].
    assert (Zpos m < 2 ^ 53)%Z.
    { apply Z.lt_le_trans with (2 ^ Zdigits2 (Zpos m))%Z; [assumption|].
      apply Z.pow_le_mono_r; lia. }
    repeat split; try lia.
    intros Hn. assert (Zdigits2 (Zpos m) = 53)%Z as Hd53 by lia.
    rewrite Hd53 in Hlo. exact Hlo.
  - intros (HM & HE & Hn).
    assert (Zdigits2 (Zpos m) <= 53)%Z as Hd by (apply Zdigits2_le; lia).
    split; [|lia].
    destruct (Z.eq_dec e (-1074)) as [->|Hne]; [lia|].
    pose proof (Zdigits2_gt (Zpos m) 52 (Hn ltac:(lia)) ltac:(lia)). lia.
Qed.

Lemma rounds_zero : rounds 0 (S754_zero false).
Proof.
  exists 0%Z, (-1074)%Z, loc_Exact. repeat split; try reflexivity; try lia.
  cbn. unfold F2R. lra.
Qed.

Lemma rounds_exact m e :
  valid_binary (S754_finite false m e) = true ->
  rounds (B2R (S754_finite false m e)) (S754_finite false m e).
Proof.
  intros Hv. pose proof Hv as Hc. apply valid_canon in Hc.
  destruct Hc as (HM & HE & Hn).
  exists (Zpos m), e, loc_Exact.
  unfold valid_binary, SpecFloat.valid_binary, bounded, canonical_mantissa in Hv.
  apply andb_true_iff in Hv. destruct Hv as [Hcm Hb].
  apply Z.eqb_eq in Hcm.
  change (Zpos (digits2_pos m)) with (Zdigits2 (Zpos m)) in Hcm.
  repeat split; try lia; try reflexivity.
  rewrite binary_round_aux_finish. unfold shr_fexp.
  rewrite Hcm, Z.sub_diag. cbn [shr shr_record_of_loc shr_m loc_of_shr_record
                                 round_nearest_even].
  rewrite finish_packed by (repeat split; lia).
  unfold packed.
  destruct (Z.eqb_spec (Zpos m) 0); [lia|].
  destruct (Z.ltb_spec (Zpos m) (2 ^ 53)); [|lia].
  destruct (Z.leb_spec e 971); [|lia].
  reflexivity.
Qed.

Lemma rounds_nonneg x f : rounds x f -> 0 <= x.
Proof.
  intros (m & e & l & Hm & Hx & _). apply inbetween_bounds in Hx.
  destruct Hx as [Hx _]. apply Rle_trans with (F2R m e); [|assumption].
  unfold F2R. apply IZR_le in Hm. pose proof (p2_pos e). nra.
Qed.

(** What rounding a nonnegative real can produce. *)
Lemma rounds_shape x f :
  rounds x f ->
  f = S754_zero false \/ f = S754_infinity false \/
  exists m e, f = S754_finite false m e /\ valid_binary f = true.
Proof.
  intros Hf. destruct (rounds_slot _ _ Hf) as (M & E & l & Hs & ->).
  pose proof (slot_roundable _ _ _ _ Hs) as (HM & HE & Hn).
  set (N := round_nearest_even M l) in *. unfold packed.
  destruct (Z.eqb_spec N 0); [left; reflexivity|].
  right.
  destruct (Z.ltb_spec N (2 ^ 53)).
  - destruct (Z.leb_spec E 971); [|left; reflexivity].
    right. eexists _, _. split; [reflexivity|].
    apply valid_canon. rewrite Z2Pos.id by lia. repeat split; lia.
  - destruct (Z.leb_spec (E + 1) 971); [|left; reflexivity].
    right. eexists _, _. split; [reflexivity|].
    apply valid_canon. rewrite Z2Pos.id by lia. repeat split; lia.
Qed.

Lemma SFleb_zero_sign_r f s s' :
  SFleb f (S754_zero s) = SFleb f (S754_zero s').
Proof. destruct f; reflexivity. Qed.

Lemma SFleb_zero_sign_l f s s' :
  SFleb (S754_zero s) f = SFleb (S754_zero s') f.
Proof. destruct f; reflexivity. Qed.

Lemma SFleb_antisym m1 e1 m2 e2 :
  SFleb (S754_finite false m1 e1) (S754_finite false m2 e2) = true ->
  SFleb (S754_finite false m2 e2) (S754_finite false m1 e1) = true ->
  S754_finite false m1 e1 = S754_finite false m2 e2.
Proof.
  intros H1 H2. apply SFleb_finite_pos in H1. apply SFleb_finite_pos in H2.
  assert (e1 = e2) by lia. assert (m1 = m2) by lia. subst. reflexivity.
Qed.

Lemma B2R_pos m e : 0 < B2R (S754_finite false m e).
Proof.
  cbn. unfold F2R. pose proof (p2_pos e).
  assert (0 < IZR (Zpos m)) by (apply IZR_lt; lia). nra.
Qed.

Lemma B2R_nonneg f : nonneg_finite f = true -> 0 <= B2R f.
Proof.
  destruct f as [s|s| |[] m e]; try discriminate; intros _.
  - cbn. lra.
  - pose proof (B2R_pos m e). lra.
Qed.

(** On valid nonnegative floats the comparisons are those of the reals. *)
Lemma SFleb_B2R a b :
  valid_binary a = true -> valid_binary b = true ->
  nonneg_finite a = true -> nonneg_finite b = true ->
  (SFleb a b = true <-> B2R a <= B2R b).
Proof.
  intros Hva Hvb Ha Hb.
  destruct a as [sa|sa| |[] ma ea]; try discriminate;
    destruct b as [sb|sb| |[] mb eb]; try discriminate.
  - cbn [B2R]. split; [intros _; lra|reflexivity].
  - pose proof (B2R_pos mb eb). cbn [B2R] in *.
    split; [intros _; lra|reflexivity].
  - pose proof (B2R_pos ma ea). cbn [B2R] in *.
    split; [discriminate|intros H'; lra].
  - split.
    + intros Hle. destruct (Rle_or_lt (B2R (S754_finite false ma ea))
                              (B2R (S754_finite false mb eb))) as [|Hlt];
        [assumption|exfalso].
      assert (SFleb (S754_finite false mb eb) (S754_finite false ma ea) = true)
        as Hge.
      { eapply rounds_mono; [apply rounds_exact| apply rounds_exact|]; try assumption.
        lra. }
      pose proof (SFleb_antisym _ _ _ _ Hle Hge) as Heq. rewrite Heq in Hlt. lra.
    + intros Hle.
      eapply rounds_mono; [apply rounds_exact| apply rounds_exact|]; assumption.
Qed.

Lemma SFltb_SFleb a b :
  nonneg_finite a = true -> nonneg_finite b = true ->
  SFltb a b = negb (SFleb b a).
Proof.
  intros Ha Hb.
  destruct a as [sa|sa| |[] ma ea]; try discriminate;
    destruct b as [sb|sb| |[] mb eb]; try discriminate; try reflexivity.
  destruct (SFltb (S754_finite false ma ea) (S754_finite false mb eb)) eqn:Hlt,
    (SFleb (S754_finite false mb eb) (S754_finite false ma ea)) eqn:Hle;
    try reflexivity; exfalso.
  - apply SFltb_finite_pos in Hlt. apply SFleb_finite_pos in Hle. lia.
  - assert (~ (ea < eb \/ ea = eb /\ Zpos ma < Zpos mb)%Z) as H1
        by (rewrite <- SFltb_finite_pos, Hlt; discriminate).
    assert (~ (eb < ea \/ eb = ea /\ Zpos mb <= Zpos ma)%Z) as H2
        by (rewrite <- SFleb_finite_pos, Hle; discriminate).
    lia.
Qed.

Lemma SFltb_B2R a b :
  valid_binary a = true -> valid_binary b = true ->
  nonneg_finite a = true -> nonneg_finite b = true ->
  (SFltb a b = true <-> B2R a < B2R b).
Proof.
  intros Hva Hvb Ha Hb. rewrite SFltb_SFleb by assumption.
  rewrite negb_true_iff.
  pose proof (SFleb_B2R b a Hvb Hva Hb Ha) as H.
  destruct (SFleb b a); split; intros H'; try discriminate; try reflexivity.
  - exfalso. apply (Rlt_irrefl (B2R a)). apply Rlt_le_trans with (B2R b); tauto.
  - destruct (Rle_or_lt (B2R b) (B2R a)) as [Hle|]; [|assumption].
    apply H in Hle. discriminate.
Qed.

(** ** Alignment, addition, subtraction, multiplication *)

Lemma Pos_iter_xO m d : Zpos (Pos.iter xO m d) = (Zpos m * 2 ^ Zpos d)%Z.
Proof.
  induction d as [|d IH] using Pos.peano_ind.
  - cbn. lia.
  - rewrite Pos.iter_succ, Pos2Z.inj_xO, IH, Pos2Z.inj_succ, Z.pow_succ_r by lia.
    lia.
Qed.

Lemma shl_align_spec mx ex ex' :
  let '(mz, ez) := shl_align mx ex ex' in
  ez = Z.min ex ex' /\ Zpos mz = (Zpos mx * 2 ^ (ex - ez))%Z.
Proof.
  unfold shl_align. destruct (ex' - ex)%Z as [|d|d] eqn:Hd.
  - split; [lia|]. rewrite Z.sub_diag. lia.
  - split; [lia|]. rewrite Z.sub_diag. lia.
  - split; [lia|]. rewrite Pos_iter_xO. f_equal. f_equal. lia.
Qed.

Lemma F2R_shift m e k : (0 <= k)%Z -> F2R (m * 2 ^ k) (e - k) = F2R m e.
Proof.
  intros Hk. unfold F2R. rewrite mult_IZR, <- (p2_Z k Hk), Rmult_assoc, <- p2_add.
  do 2 f_equal. lia.
Qed.

Lemma Zdigits2_unique m k :
  (2 ^ (k - 1) <= m < 2 ^ k)%Z -> (0 < k)%Z -> Zdigits2 m = k.
Proof.
  intros Hm Hk.
  assert (0 < 2 ^ (k - 1))%Z by (apply Z.pow_pos_nonneg; lia).
  pose proof (Zdigits2_le m k ltac:(lia) ltac:(lia)).
  pose proof (Zdigits2_gt m (k - 1) ltac:(lia) ltac:(lia)). lia.
Qed.

Lemma Zdigits2_shift m k :
  (0 < m)%Z -> (0 <= k)%Z -> Zdigits2 (m * 2 ^ k) = (Zdigits2 m + k)%Z.
Proof.
  intros Hm Hk. destruct (Zdigits2_bounds m Hm) as [[Hlo Hhi] Hd].
  assert (0 < 2 ^ k)%Z by (apply Z.pow_pos_nonneg; lia).
  apply Zdigits2_unique; [|lia].
  replace (Zdigits2 m + k - 1)%Z with (Zdigits2 m - 1 + k)%Z by lia.
  rewrite !Z.pow_add_r by lia. nia.
Qed.

Lemma binary_round_rounds M e :
  rounds (F2R (Zpos M) e) (binary_round prec emax false M e).
Proof.
  unfold binary_round.
  pose proof (shl_align_spec M e (fexp prec emax (Zpos (digits2_pos M) + e))) as Hs.
  destruct (shl_align M e (fexp prec emax (Zpos (digits2_pos M) + e))) as [mz ez].
  destruct Hs as [Hez Hmz].
  change (Zpos (digits2_pos M)) with (Zdigits2 (Zpos M)) in *.
  exists (Zpos mz), ez, loc_Exact. split; [lia|]. split; [|split; [|reflexivity]].
  - cbn [inbetween]. rewrite Hmz.
    replace ez with (e - (e - ez))%Z at 2 by lia.
    rewrite F2R_shift by lia. reflexivity.
  - rewrite Hmz, Zdigits2_shift by lia.
    replace (Zdigits2 (Zpos M) + (e - ez) + ez)%Z with (Zdigits2 (Zpos M) + e)%Z by lia.
    lia.
Qed.

Lemma binary_normalize_rounds m e :
  (0 <= m)%Z -> rounds (F2R m e) (binary_normalize prec emax m e false).
Proof.
  intros Hm. destruct m as [|p|p]; [| |lia].
  - cbn [binary_normalize]. unfold F2R. rewrite Rmult_0_l. apply rounds_zero.
  - apply binary_round_rounds.
Qed.

Lemma B2R_finite s m e : B2R (S754_finite s m e) = F2R (cond_Zopp s (Zpos m)) e.
Proof. reflexivity. Qed.

Lemma F2R_align s m e ez :
  (ez <= e)%Z ->
  F2R (cond_Zopp s (Zpos (fst (shl_align m e ez)))) ez = F2R (cond_Zopp s (Zpos m)) e.
Proof.
  intros Hle. pose proof (shl_align_spec m e ez) as Hs.
  destruct (shl_align m e ez) as [mz ez']. destruct Hs as [Hez Hmz]. cbn [fst].
  assert (ez' = ez) as -> by lia.
  rewrite Hmz. rewrite <- (F2R_shift (cond_Zopp s (Zpos m)) e (e - ez)) by lia.
  replace (e - (e - ez))%Z with ez by lia.
  destruct s; cbn [cond_Zopp]; [rewrite <- Z.mul_opp_l|]; reflexivity.
Qed.

Lemma F2R_plus m1 m2 e : F2R (m1 + m2) e = F2R m1 e + F2R m2 e.
Proof. unfold F2R. rewrite plus_IZR. lra. Qed.

Lemma F2R_minus m1 m2 e : F2R (m1 - m2) e = F2R m1 e - F2R m2 e.
Proof. unfold F2R. rewrite minus_IZR. lra. Qed.

Lemma F2R_nonneg m e : 0 <= F2R m e -> (0 <= m)%Z.
Proof.
  unfold F2R. intros H. pose proof (p2_pos e). apply le_IZR. nra.
Qed.

(** Addition and subtraction of two finite numbers whose exact result is
    not negative. *)
Lemma SFadd_rounds sx mx ex sy my ey :
  0 <= B2R (S754_finite sx mx ex) + B2R (S754_finite sy my ey) ->
  rounds (B2R (S754_finite sx mx ex) + B2R (S754_finite sy my ey))
         (SFadd prec emax (S754_finite sx mx ex) (S754_finite sy my ey)).
Proof.
  intros Hpos. cbn [SFadd].
  rewrite !B2R_finite in *.
  rewrite <- (F2R_align sx mx ex (Z.min ex ey)) in * by lia.
  rewrite <- (F2R_align sy my ey (Z.min ex ey)) in * by lia.
  rewrite <- F2R_plus in *.
  apply binary_normalize_rounds. eapply F2R_nonneg; eassumption.
Qed.

Lemma SFsub_rounds sx mx ex sy my ey :
  0 <= B2R (S754_finite sx mx ex) - B2R (S754_finite sy my ey) ->
  rounds (B2R (S754_finite sx mx ex) - B2R (S754_finite sy my ey))
         (SFsub prec emax (S754_finite sx mx ex) (S754_finite sy my ey)).
Proof.
  intros Hpos. cbn [SFsub].
  rewrite !B2R_finite in *.
  rewrite <- (F2R_align sx mx ex (Z.min ex ey)) in * by lia.
  rewrite <- (F2R_align sy my ey (Z.min ex ey)) in * by lia.
  rewrite <- F2R_minus in *.
  apply binary_normalize_rounds. eapply F2R_nonneg; eassumption.
Qed.

(** Multiplication of two positive finite numbers. *)
Lemma SFmul_rounds mx ex my ey :
  valid_binary (S754_finite false mx ex) = true ->
  valid_binary (S754_finite false my ey) = true ->
  rounds (B2R (S754_finite false mx ex) * B2R (S754_finite false my ey))
         (SFmul prec emax (S754_finite false mx ex) (S754_finite false my ey)).
Proof.
  intros Hx Hy. apply valid_canon in Hx, Hy.
  destruct Hx as (HMx & HEx & Hnx), Hy as (HMy & HEy & Hny).
  cbn [SFmul xorb B2R cond_Zopp].
  exists (Zpos (mx * my)), (ex + ey)%Z, loc_Exact.
  split; [lia|]. split; [|split; [|reflexivity]].
  - cbn [inbetween]. unfold F2R. rewrite Pos2Z.inj_mul, mult_IZR, p2_add. lra.
  - rewrite fexp_eq.
    assert (2 ^ 52 <= Zpos (mx * my) \/ ex + ey <= -1074)%Z as [Hbig|Hsmall].
    { rewrite Pos2Z.inj_mul.
      destruct (Z.eq_dec ex (-1074)) as [->|Hx'];
        destruct (Z.eq_dec ey (-1074)) as [->|Hy']; try (right; lia).
      - destruct (Z_le_gt_dec ey 0); [right; lia|left].
        specialize (Hny ltac:(lia)). nia.
      - destruct (Z_le_gt_dec ex 0); [right; lia|left].
        specialize (Hnx ltac:(lia)). nia.
      - left. specialize (Hnx ltac:(lia)). specialize (Hny ltac:(lia)). nia. }
    + pose proof (Zdigits2_gt _ 52 Hbig ltac:(lia)). lia.
    + lia.
Qed.

(** ** Division *)

Lemma new_location_spec m2 r :
  (0 <= r < m2)%Z ->
  new_location m2 r =
  if (r =? 0)%Z then loc_Exact else loc_Inexact (2 * r ?= m2)%Z.
Proof.
  intros Hr. unfold new_location, new_location_even, new_location_odd.
  destruct (Z.even m2) eqn:Hev; [reflexivity|].
  destruct (Z.eqb_spec r 0); [reflexivity|]. f_equal.
  assert (Z.odd m2 = true) as Hodd by (rewrite <- Z.negb_even, Hev; reflexivity).
  apply Z.odd_spec in Hodd. destruct Hodd as [k Hk].
  destruct (Z.compare_spec (2 * r + 1) m2), (Z.compare_spec (2 * r) m2);
    try reflexivity; lia.
Qed.

Lemma div_core_spec m1 e1 m2 e2 :
  (0 < m1)%Z -> (0 < m2)%Z ->
  let '(q, e', l) := SFdiv_core_binary prec emax m1 e1 m2 e2 in
  (0 <= q)%Z /\ inbetween q e' l (F2R m1 e1 / F2R m2 e2) /\
  (e' <= fexp prec emax (Zdigits2 q + e'))%Z.
Proof.
  intros Hm1 Hm2. unfold SFdiv_core_binary. rewrite !fexp_eq.
  set (d1 := Zdigits2 m1). set (d2 := Zdigits2 m2).
  set (e' := Z.min (Z.max (d1 + e1 - (d2 + e2) - 53) (-1074)) (e1 - e2)).
  set (s := (e1 - e2 - e')%Z).
  assert (0 <= s)%Z as Hs by lia.
  set (m' := match s with Zpos _ => Z.shiftl m1 s | Z0 => m1 | Zneg _ => 0%Z end).
  assert (m' = m1 * 2 ^ s)%Z as Hm'.
  { unfold m'. destruct s as [|p|p] eqn:Es; [lia| |lia].
    apply Z.shiftl_mul_pow2. lia. }
  clearbody m'.
  assert (e' <= Z.max (d1 + e1 - (d2 + e2) - 53) (-1074))%Z as He'
    by (unfold e'; lia).
  assert (s = e1 - e2 - e')%Z as Hsdef by reflexivity.
  clearbody s. clearbody e'.
  pose proof (Z_div_mod m' m2 ltac:(lia)) as Hdiv.
  destruct (Z.div_eucl m' m2) as [q r]. destruct Hdiv as [Hqr Hr].
  assert (0 < 2 ^ s)%Z as Hp by (apply Z.pow_pos_nonneg; lia).
  assert (0 <= q)%Z as Hq by nia.
  split; [assumption|].
  destruct (Zdigits2_bounds m1 Hm1) as [[Hd1lo Hd1hi] Hd1].
  destruct (Zdigits2_bounds m2 Hm2) as [[Hd2lo Hd2hi] Hd2].
  fold d1 in Hd1lo, Hd1hi, Hd1. fold d2 in Hd2lo, Hd2hi, Hd2.
  split.
  - rewrite new_location_spec by assumption.
    set (u := p2 e').
    assert (0 < u) as Hu by apply p2_pos.
    assert (0 < IZR m2) as Hm2R by (apply IZR_lt; lia).
    assert (F2R m1 e1 / F2R m2 e2 = (IZR q + IZR r / IZR m2) * u) as HX.
    { unfold F2R, u.
      replace e1 with (e' + s + e2)%Z by lia.
      rewrite !p2_add, (p2_Z s Hs).
      assert (IZR m1 * IZR (2 ^ s) = IZR m2 * IZR q + IZR r) as Hq'.
      { rewrite <- !mult_IZR, <- plus_IZR. f_equal. lia. }
      pose proof (p2_pos e2).
      field_simplify; [|lra|lra].
      replace (IZR m1 * p2 e' * IZR (2 ^ s))
        with ((IZR m1 * IZR (2 ^ s)) * p2 e') by ring.
      rewrite Hq'. field. lra. }
    rewrite HX. set (t := IZR r / IZR m2).
    assert (IZR r = t * IZR m2) as Ht by (unfold t; field; lra).
    destruct (Z.eqb_spec r 0) as [->|Hr0].
    + cbn [inbetween]. unfold F2R. fold u.
      assert (t = 0) by (unfold t; lra). nra.
    + assert (0 < IZR r) as HrR by (apply IZR_lt; lia).
      assert (IZR r < IZR m2) as HrR' by (apply IZR_lt; lia).
      assert (0 < t) by nra.
      assert (t < 1) by nra.
      cbn [inbetween]. unfold F2R. fold u. rewrite !plus_IZR, mult_IZR.
      split; [split; nra|].
      destruct (Z.compare_spec (2 * r) m2) as [Hc|Hc|Hc].
      * assert (2 * IZR r = IZR m2) by (rewrite <- Hc, mult_IZR; reflexivity).
        assert (2 * t = 1) by nra. nra.
      * apply IZR_lt in Hc. rewrite mult_IZR in Hc.
        assert (2 * t < 1) by nra. nra.
      * apply IZR_lt in Hc. rewrite mult_IZR in Hc.
        assert (1 < 2 * t) by nra. nra.
  - rewrite fexp_eq. destruct (Z.eq_dec q 0) as [->|Hq0].
    + cbn [Zdigits2 Z.add].
      assert (2 ^ (d1 - 1 + s) < 2 ^ d2)%Z as Hpow.
      { rewrite Z.pow_add_r by lia. nia. }
      apply Z.pow_lt_mono_r_iff in Hpow; lia.
    + assert (d1 + s - d2 <= Zdigits2 q)%Z as Hdq.
      { destruct (Z_lt_ge_dec (d1 + s - d2 - 1) 0) as [Hneg|Hnn].
        - destruct (Zdigits2_bounds q ltac:(lia)) as [_ Hdq]. lia.
        - assert (2 ^ (d1 + s - d2 - 1) <= q)%Z as Hqlo.
          { assert (2 ^ (d1 - 1 + s) <= m')%Z as H1.
            { rewrite Z.pow_add_r by lia. nia. }
            replace (d1 - 1 + s)%Z with ((d1 + s - d2 - 1) + d2)%Z in H1 by lia.
            rewrite Z.pow_add_r in H1 by lia.
            assert (0 < 2 ^ d2)%Z by (apply Z.pow_pos_nonneg; lia).
            assert (0 < 2 ^ (d1 + s - d2 - 1))%Z by (apply Z.pow_pos_nonneg; lia).
            nia. }
          pose proof (Zdigits2_gt q _ Hqlo ltac:(lia)). lia. }
      lia.
Qed.

(** Division of two positive finite numbers. *)
Lemma SFdiv_rounds mx ex my ey :
  rounds (B2R (S754_finite false mx ex) / B2R (S754_finite false my ey))
         (SFdiv prec emax (S754_finite false mx ex) (S754_finite false my ey)).
Proof.
  cbn [SFdiv xorb B2R cond_Zopp].
  pose proof (div_core_spec (Zpos mx) ex (Zpos my) ey ltac:(lia) ltac:(lia)) as H.
  destruct (SFdiv_core_binary prec emax (Zpos mx) ex (Zpos my) ey) as [[q e'] l].
  destruct H as (Hq & Hin & He).
  exists q, e', l. repeat split; assumption.
Qed.

(** ** Rounding is a function; representable reals are fixed *)

(** Rounding is a function of the real. *)
Lemma rounds_unique x f g : rounds x f -> rounds x g -> f = g.
Proof.
  intros Hf Hg.
  pose proof (rounds_mono x x f g Hf Hg ltac:(lra)) as H1.
  pose proof (rounds_mono x x g f Hg Hf ltac:(lra)) as H2.
  destruct (rounds_shape _ _ Hf) as [->|[->|(m1 & e1 & -> & _)]];
    destruct (rounds_shape _ _ Hg) as [->|[->|(m2 & e2 & -> & _)]];
    try reflexivity; try discriminate.
  apply SFleb_antisym; assumption.
Qed.

(** A real that fits the format is left alone by rounding. *)
Lemma rounds_representable x f M e :
  rounds x f -> x = F2R M e -> (0 < M < 2 ^ 53)%Z -> (-1074 <= e)%Z ->
  x < p2 1024 ->
  B2R f = x /\ nonneg_finite f = true /\ valid_binary f = true.
Proof.
  intros Hf Hx HM He Hmax.
  destruct (rounds_slot _ _ Hf) as (Ms & E & l & Hs & ->).
  pose proof (slot_roundable _ _ _ _ Hs) as Hr.
  destruct Hs as (HMs & HE & Hn & Hin).
  pose proof (inbetween_bounds _ _ _ _ Hin) as [Hlo Hhi].
  assert (E <= e)%Z as HEe.
  { destruct (Z_le_gt_dec E e) as [|Hgt]; [assumption|exfalso].
    assert (p2 (E + 52) <= F2R Ms E) by (apply p2_le_F2R; lia).
    assert (F2R M e < p2 (e + 53)).
    { apply Rlt_le_trans with (F2R (2 ^ 53) e).
      - apply F2R_lt_iff. lia.
      - apply F2R_le_p2; lia. }
    assert (p2 (e + 53) <= p2 (E + 52)) by (apply p2_le; lia).
    lra. }
  assert (E <= 971)%Z as HE971.
  { destruct (Z_le_gt_dec E 971) as [|Hgt]; [assumption|exfalso].
    assert (p2 (E + 52) <= F2R Ms E) by (apply p2_le_F2R; lia).
    assert (p2 1024 <= p2 (E + 52)) by (apply p2_le; lia).
    lra. }
  assert (x = F2R (M * 2 ^ (e - E)) E) as HxE.
  { rewrite Hx. rewrite <- (F2R_shift M e (e - E)) by lia. f_equal. lia. }
  set (K := (M * 2 ^ (e - E))%Z) in *.
  assert (Ms = K /\ l = loc_Exact) as [-> ->].
  { rewrite HxE in Hlo, Hhi. apply F2R_le_iff in Hlo. apply F2R_lt_iff in Hhi.
    split; [lia|].
    destruct l as [|c]; [reflexivity|exfalso].
    destruct Hin as [[Hin _] _]. rewrite HxE in Hin. apply F2R_lt_iff in Hin. lia. }
  cbn [round_nearest_even] in *.
  assert (0 < K)%Z as HK.
  { unfold K. apply Z.mul_pos_pos; [lia|]. apply Z.pow_pos_nonneg; lia. }
  unfold packed.
  destruct (Z.eqb_spec K 0); [lia|].
  destruct (Z.ltb_spec K (2 ^ 53)); [|lia].
  destruct (Z.leb_spec E 971); [|lia].
  split; [|split].
  - cbn [B2R cond_Zopp]. rewrite Z2Pos.id by lia. symmetry. exact HxE.
  - reflexivity.
  - apply valid_canon. rewrite Z2Pos.id by lia. repeat split; lia.
Qed.

Lemma binary_round_aux_opp m e l :
  binary_round_aux prec emax true m e l =
  SFopp (binary_round_aux prec emax false m e l).
Proof.
  unfold binary_round_aux.
  destruct (shr_fexp prec emax m e l) as [mrs' e'].
  destruct (shr_fexp prec emax _ e' loc_Exact) as [mrs'' e''].
  destruct (shr_m mrs''); try reflexivity.
  destruct (e'' <=? emax - prec)%Z; reflexivity.
Qed.

Lemma binary_round_opp M e :
  binary_round prec emax true M e = SFopp (binary_round prec emax false M e).
Proof.
  unfold binary_round.
  destruct (shl_align M e _) as [mz ez]. apply binary_round_aux_opp.
Qed.

Lemma rounds0_shape r f :
  rounds0 r f ->
  (exists s, f = S754_zero s) \/ f = S754_infinity false \/
  exists m e, f = S754_finite false m e /\ valid_binary f = true.
Proof.
  intros [Hf|[_ [s ->]]].
  - destruct (rounds_shape _ _ Hf) as [->|[->|H]]; eauto.
  - eauto.
Qed.

Lemma rounds_self f :
  valid_binary f = true -> nonneg_finite f = true ->
  rounds0 (B2R f) f.
Proof.
  intros Hv Hn. destruct f as [s|s| |[] m e]; try discriminate.
  - right. split; [reflexivity|]. eauto.
  - left. apply rounds_exact. assumption.
Qed.

(** ** The primitive operations *)

Lemma rounds0_mono x y f g :
  rounds0 x f -> rounds0 y g -> x <= y -> SFleb f g = true.
Proof.
  intros [Hf|[-> [s ->]]] [Hg|[-> [s' ->]]] Hxy.
  - eapply rounds_mono; eassumption.
  - rewrite (SFleb_zero_sign_r f s' false).
    eapply rounds_mono; [eassumption|apply rounds_zero|assumption].
  - rewrite (SFleb_zero_sign_l g s false).
    eapply rounds_mono; [apply rounds_zero|eassumption|assumption].
  - reflexivity.
Qed.

Lemma val_0 : val 0%float = 0.
Proof. unfold val. spec_of 0%float. reflexivity. Qed.
Lemma val_1 : val 1%float = 1.
Proof. val_const 1%float. Qed.
Lemma val_90 : val 90%float = 90.
Proof. val_const 90%float. Qed.
Lemma val_180 : val 180%float = 180.
Proof. val_const 180%float. Qed.
Lemma val_270 : val 270%float = 270.
Proof. val_const 270%float. Qed.
Lemma val_360 : val 360%float = 360.
Proof. val_const 360%float. Qed.
Lemma val_0_1 : val 0.1%float = 7205759403792794 / 72057594037927936.
Proof. val_const 0.1%float. Qed.
Lemma val_0_9 : val (1 - 0.1)%float = 8106479329266893 / 9007199254740992.
Proof. val_const (1 - 0.1)%float. Qed.
Lemma val_floor : val (1 - (1 - 0.1))%float = 7205759403792792 / 72057594037927936.
Proof. val_const (1 - (1 - 0.1))%float. Qed.

Lemma is_finite_spec x :
  is_finite x = true ->
  match Prim2SF x with
  | S754_zero _ | S754_finite _ _ _ => True
  | _ => False
  end.
Proof.
  unfold is_finite, is_nan, is_infinity.
  rewrite !FloatAxioms.eqb_spec, FloatAxioms.abs_spec. spec_of infinity.
  destruct (Prim2SF x) as [s|[]| |s m e]; cbn; try trivial; discriminate.
Qed.

Lemma leb_val x y :
  fin_nonneg x = true -> fin_nonneg y = true ->
  ((x <=? y)%float = true <-> val x <= val y).
Proof.
  intros Hx Hy. rewrite FloatAxioms.leb_spec.
  apply SFleb_B2R; try apply Prim2SF_valid; assumption.
Qed.

Lemma ltb_val x y :
  fin_nonneg x = true -> fin_nonneg y = true ->
  ((x <? y)%float = true <-> val x < val y).
Proof.
  intros Hx Hy. rewrite FloatAxioms.ltb_spec.
  apply SFltb_B2R; try apply Prim2SF_valid; assumption.
Qed.

Lemma in_range_intro r z a lo b hi :
  rounds0 r (Prim2SF z) ->
  rounds0 lo (Prim2SF a) -> rounds0 hi (Prim2SF b) ->
  fin_nonneg a = true -> fin_nonneg b = true ->
  lo <= r <= hi ->
  in_range a b z.
Proof.
  intros Hz Ha Hb Hna Hnb [Hlo Hhi].
  pose proof (rounds0_mono _ _ _ _ Ha Hz Hlo) as Haz.
  pose proof (rounds0_mono _ _ _ _ Hz Hb Hhi) as Hzb.
  assert (fin_nonneg z = true) as Hnz.
  { unfold fin_nonneg in *.
    destruct (rounds0_shape _ _ Hz) as [[s Hs]|[Hs|(m & e & Hs & _)]];
      rewrite Hs in *; try reflexivity.
    destruct (Prim2SF b) as [?|?| |[] ? ?]; cbn in Hzb, Hnb; discriminate. }
  split; [assumption|].
  rewrite <- FloatAxioms.leb_spec in Haz, Hzb.
  split; apply leb_val; assumption.
Qed.

Lemma self_rounds0 c : fin_nonneg c = true -> rounds0 (val c) (Prim2SF c).
Proof. intros H. apply rounds_self; [apply Prim2SF_valid|assumption]. Qed.

(** The primitive operations on nonnegative finite operands. *)
Lemma div_rounds0 x c :
  fin_nonneg x = true -> fin_pos c = true ->
  rounds0 (val x / val c) (Prim2SF (x / c)).
Proof.
  unfold fin_nonneg, fin_pos, val. rewrite FloatAxioms.div_spec. unfold SF64div.
  destruct (Prim2SF c) as [?|?| |[] mc ec]; try discriminate.
  destruct (Prim2SF x) as [s|?| |[] mx ex]; try discriminate; intros _ _.
  - right. split; [cbn [B2R]; unfold Rdiv; ring|]. cbn. eauto.
  - left. apply SFdiv_rounds.
Qed.

Lemma div_pos_rounds x c :
  fin_pos x = true -> fin_pos c = true ->
  rounds (val x / val c) (Prim2SF (x / c)).
Proof.
  unfold fin_pos, val. rewrite FloatAxioms.div_spec. unfold SF64div.
  destruct (Prim2SF c) as [?|?| |[] mc ec]; try discriminate.
  destruct (Prim2SF x) as [s|?| |[] mx ex]; try discriminate; intros _ _.
  apply SFdiv_rounds.
Qed.

Lemma mul_rounds0 x c :
  fin_nonneg x = true -> fin_pos c = true ->
  rounds0 (val x * val c) (Prim2SF (x * c)).
Proof.
  unfold fin_nonneg, fin_pos, val. rewrite FloatAxioms.mul_spec. unfold SF64mul.
  pose proof (Prim2SF_valid x) as Hvx. pose proof (Prim2SF_valid c) as Hvc.
  destruct (Prim2SF c) as [?|?| |[] mc ec]; try discriminate.
  destruct (Prim2SF x) as [s|?| |[] mx ex]; try discriminate; intros _ _.
  - right. split; [cbn [B2R]; ring|]. cbn. eauto.
  - left. apply SFmul_rounds; assumption.
Qed.

Lemma B2R_neg_lt m e : B2R (S754_finite true m e) < 0.
Proof.
  cbn. unfold F2R. pose proof (p2_pos e).
  assert (IZR (Zneg m) < 0) by (apply IZR_lt; lia). nra.
Qed.

Lemma add_rounds0 x y :
  fin_any x = true -> fin_any y = true -> 0 <= val x + val y ->
  rounds0 (val x + val y) (Prim2SF (x + y)).
Proof.
  unfold fin_any, val. rewrite FloatAxioms.add_spec. unfold SF64add.
  pose proof (Prim2SF_valid x) as Hvx. pose proof (Prim2SF_valid y) as Hvy.
  destruct (Prim2SF x) as [sx|?| |sx mx ex]; try discriminate;
    destruct (Prim2SF y) as [sy|?| |sy my ey]; try discriminate; intros _ _ Hs.
  - right. split; [cbn [B2R]; lra|]. destruct sx, sy; cbn; eauto.
  - cbn [SFadd]. replace (B2R (S754_zero sx) + B2R (S754_finite sy my ey))
      with (B2R (S754_finite sy my ey)) by (cbn [B2R]; lra).
    destruct sy.
    + exfalso. pose proof (B2R_neg_lt my ey). cbn [B2R] in *. lra.
    + left. apply rounds_exact. assumption.
  - cbn [SFadd]. replace (B2R (S754_finite sx mx ex) + B2R (S754_zero sy))
      with (B2R (S754_finite sx mx ex)) by (cbn [B2R]; lra).
    destruct sx.
    + exfalso. pose proof (B2R_neg_lt mx ex). cbn [B2R] in *. lra.
    + left. apply rounds_exact. assumption.
  - left. apply SFadd_rounds. assumption.
Qed.

Lemma sub_rounds0 x y :
  fin_any x = true -> fin_any y = true -> 0 <= val x - val y ->
  rounds0 (val x - val y) (Prim2SF (x - y)).
Proof.
  unfold fin_any, val. rewrite FloatAxioms.sub_spec. unfold SF64sub.
  pose proof (Prim2SF_valid x) as Hvx. pose proof (Prim2SF_valid y) as Hvy.
  destruct (Prim2SF x) as [sx|?| |sx mx ex]; try discriminate;
    destruct (Prim2SF y) as [sy|?| |sy my ey]; try discriminate; intros _ _ Hs.
  - right. split; [cbn [B2R]; lra|]. destruct sx, sy; cbn; eauto.
  - cbn [SFsub].
    destruct sy.
    + left. replace (B2R (S754_zero sx) - B2R (S754_finite true my ey))
        with (B2R (S754_finite false my ey)).
      * apply rounds_exact. assumption.
      * cbn [B2R cond_Zopp]. unfold F2R.
        change (Zneg my) with (- Zpos my)%Z. rewrite opp_IZR. lra.
    + exfalso. pose proof (B2R_pos my ey). cbn [B2R] in *. lra.
  - cbn [SFsub]. replace (B2R (S754_finite sx mx ex) - B2R (S754_zero sy))
      with (B2R (S754_finite sx mx ex)) by (cbn [B2R]; lra).
    destruct sx.
    + exfalso. pose proof (B2R_neg_lt mx ex). cbn [B2R] in *. lra.
    + left. apply rounds_exact. assumption.
  - left. apply SFsub_rounds. assumption.
Qed.

Lemma fin_nonneg_any x : fin_nonneg x = true -> fin_any x = true.
Proof.
  unfold fin_nonneg, fin_any. destruct (Prim2SF x); try discriminate; reflexivity.
Qed.

Lemma fin_pos_nonneg x : fin_pos x = true -> fin_nonneg x = true.
Proof.
  unfold fin_nonneg, fin_pos. destruct (Prim2SF x); try discriminate. trivial.
Qed.

Lemma fin_pos_val x : fin_pos x = true -> 0 < val x.
Proof.
  unfold fin_pos, val. destruct (Prim2SF x) as [?|?| |[] m e]; try discriminate.
  intros _. apply B2R_pos.
Qed.

Lemma val_pos_fin_pos x : fin_nonneg x = true -> 0 < val x -> fin_pos x = true.
Proof.
  unfold fin_pos, fin_nonneg, val.
  destruct (Prim2SF x) as [?|?| |[] m e]; try discriminate; cbn [B2R]; intros;
    try lra; reflexivity.
Qed.

Lemma fin_pos_nonzero x : fin_pos x = true -> (x =? 0)%float = false.
Proof.
  unfold fin_pos. rewrite FloatAxioms.eqb_spec. spec_of 0%float.
  destruct (Prim2SF x) as [?|?| |[] m e]; try discriminate. reflexivity.
Qed.

(** ** The remainder by 360 *)

Lemma p2_1024_big : 360 < p2 1024.
Proof.
  apply Rlt_le_trans with (p2 9).
  - rewrite p2_Z by lia. change (2 ^ 9)%Z with 512%Z. lra.
  - apply p2_le. lia.
Qed.

Lemma F2R_360 : F2R 6333186975989760 (-44) = 360.
Proof. unfold F2R. p2_consts. lra. Qed.

Lemma SFfmod_360 sx mx ex :
  valid_binary (S754_finite sx mx ex) = true ->
  exists Q rho,
    (0 <= Q)%Z /\ 0 <= rho < 360 /\
    F2R (Zpos mx) ex = 360 * IZR Q + rho /\
    ((rho = 0 /\ PyFloat.SFfmod (S754_finite sx mx ex) Y360 = S754_zero sx) \/
     (0 < rho /\
      exists m e,
        valid_binary (S754_finite false m e) = true /\
        B2R (S754_finite false m e) = rho /\
        PyFloat.SFfmod (S754_finite sx mx ex) Y360 = S754_finite sx m e)).
Proof.
  intros Hv. apply valid_canon in Hv. destruct Hv as (HM & HE & Hn).
  unfold PyFloat.SFfmod, Y360.
  set (ez := Z.min ex (-44)).
  set (X := (Zpos mx * 2 ^ (ex - ez))%Z).
  set (Y := (6333186975989760 * 2 ^ (-44 - ez))%Z).
  assert (0 < 2 ^ (ex - ez))%Z by (apply Z.pow_pos_nonneg; lia).
  assert (0 < 2 ^ (-44 - ez))%Z by (apply Z.pow_pos_nonneg; lia).
  assert (0 < X)%Z as HX by (unfold X; lia).
  assert (0 < Y)%Z as HY by (unfold Y; lia).
  pose proof (Z.div_mod X Y ltac:(lia)) as Hdm.
  pose proof (Z.mod_pos_bound X Y HY) as Hmod.
  assert (0 <= X / Y)%Z as HQ by (apply Z.div_pos; lia).
  set (R := (X mod Y)%Z) in *. set (Q := (X / Y)%Z) in *.
  assert (F2R X ez = F2R (Zpos mx) ex) as HFX.
  { unfold X. rewrite <- (F2R_shift (Zpos mx) ex (ex - ez)) by lia. f_equal. lia. }
  assert (F2R Y ez = 360) as HFY.
  { unfold Y. rewrite <- F2R_360.
    rewrite <- (F2R_shift 6333186975989760 (-44) (-44 - ez)) by lia. f_equal. lia. }
  assert (F2R (Zpos mx) ex = 360 * IZR Q + F2R R ez) as Hsplit.
  { rewrite <- HFX, <- HFY, Hdm. unfold F2R. rewrite plus_IZR, mult_IZR. ring. }
  assert (0 <= F2R R ez < 360) as Hrho.
  { rewrite <- HFY. split.
    - unfold F2R. pose proof (p2_pos ez). assert (0 <= IZR R) by (apply IZR_le; lia).
      nra.
    - apply F2R_lt_iff. lia. }
  exists Q, (F2R R ez). split; [assumption|]. split; [assumption|].
  split; [assumption|].
  destruct (Z.eq_dec R 0) as [HR0|HR0].
  - left. rewrite HR0. split.
    + unfold F2R. lra.
    + destruct sx; reflexivity.
  - right.
    assert (0 < R)%Z as HRpos by lia.
    assert (0 < F2R R ez) as Hpos.
    { unfold F2R. pose proof (p2_pos ez). assert (0 < IZR R) by (apply IZR_lt; lia).
      nra. }
    split; [assumption|].
    assert (R < 2 ^ 53)%Z as HR53.
    { destruct (Z_le_gt_dec ex (-44)).
      - assert (X = Zpos mx) as HXe.
        { unfold X. replace (ex - ez)%Z with 0%Z by lia. lia. }
        pose proof (Z.mod_le X Y ltac:(lia) HY). fold R in H1. lia.
      - assert (Y = 6333186975989760)%Z as HYe.
        { unfold Y. replace (-44 - ez)%Z with 0%Z by lia. lia. }
        lia. }
    destruct R as [|p|p]; try lia.
    pose proof (binary_round_rounds p ez) as Hr.
    destruct (rounds_representable _ _ (Zpos p) ez Hr eq_refl ltac:(lia) ltac:(lia)
                ltac:(pose proof p2_1024_big; lra)) as (HB & Hnn & Hval).
    destruct (binary_round prec emax false p ez) as [s|s| |s m e] eqn:Hbr;
      try discriminate.
    + exfalso. cbn [B2R] in HB. lra.
    + destruct s; [discriminate|].
      exists m, e. split; [assumption|]. split; [assumption|].
      destruct sx; cbn [cond_Zopp Z.opp binary_normalize].
      * rewrite binary_round_opp, Hbr. reflexivity.
      * assumption.
Qed.

Lemma B2R_opp m e : B2R (S754_finite true m e) = - B2R (S754_finite false m e).
Proof.
  cbn [B2R cond_Zopp]. unfold F2R. change (Zneg m) with (- Zpos m)%Z.
  rewrite opp_IZR. ring.
Qed.

Lemma B2R_Y360 : B2R Y360 = 360.
Proof. exact F2R_360. Qed.

(** [angle % 360] on a finite double: the real is split by 360 and the
    remainder, in [0, 360), is what the result is the rounding of. *)
Lemma rem_360_spec x :
  is_finite x = true ->
  exists n q rho,
    PyFloat.rem x 360 = Ok n /\
    val x = 360 * IZR q + rho /\ 0 <= rho < 360 /\
    rounds rho (Prim2SF n).
Proof.
  intros Hfin. apply is_finite_spec in Hfin.
  pose proof (Prim2SF_valid x) as Hvx.
  unfold PyFloat.rem, PyFloat.fmod, val.
  change (360 =? 0)%float with false. cbv iota.
  change (Prim2SF 360) with Y360.
  destruct (Prim2SF x) as [s|s| |sx mx ex]; try contradiction.
  - exists 0%float, 0%Z, 0. split; [destruct s; reflexivity|].
    split; [cbn [B2R]; lra|]. split; [lra|]. apply rounds_zero.
  - destruct (SFfmod_360 sx mx ex Hvx)
      as (Q & rho & HQ & Hrho & Hsplit & [[Hr0 Hf]|(Hpos & m & e & Hvf & HB & Hf)]);
      rewrite Hf.
    + exists 0%float, (if sx then - Q else Q)%Z, 0.
      split; [destruct sx; reflexivity|].
      split; [|split; [lra|apply rounds_zero]].
      destruct sx; [rewrite B2R_opp|]; cbn [B2R cond_Zopp]; rewrite Hsplit, Hr0;
        rewrite ?opp_IZR; ring.
    + assert (Prim2SF (SF2Prim (S754_finite sx m e)) = S754_finite sx m e) as Hps
        by (apply Prim2SF_SF2Prim; exact Hvf).
      set (mod_ := SF2Prim (S754_finite sx m e)) in *.
      assert ((mod_ =? 0)%float = false) as Hz.
      { rewrite FloatAxioms.eqb_spec, Hps. destruct sx; reflexivity. }
      rewrite Hz. cbv iota. cbn [negb].
      change (360 <? 0)%float with false. cbn [xorb].
      destruct sx.
      * assert ((mod_ <? 0)%float = true) as Hlt
            by (rewrite FloatAxioms.ltb_spec, Hps; reflexivity).
        rewrite Hlt.
        exists (mod_ + 360)%float, (- Q - 1)%Z, (360 - rho).
        split; [reflexivity|].
        split; [|split; [lra|]].
        -- rewrite B2R_opp. cbn [B2R cond_Zopp]. rewrite Hsplit.
           rewrite minus_IZR, opp_IZR. ring.
        -- rewrite FloatAxioms.add_spec, Hps. change (Prim2SF 360) with Y360.
           unfold SF64add.
           replace (360 - rho)
             with (B2R (S754_finite true m e) + B2R Y360)
             by (rewrite B2R_opp, HB, B2R_Y360; ring).
           apply SFadd_rounds. fold Y360. rewrite B2R_opp, HB, B2R_Y360. lra.
      * assert ((mod_ <? 0)%float = false) as Hlt
            by (rewrite FloatAxioms.ltb_spec, Hps; reflexivity).
        rewrite Hlt.
        exists mod_, Q, rho.
        split; [reflexivity|].
        split; [cbn [B2R cond_Zopp]; exact Hsplit|].
        split; [lra|].
        rewrite Hps, <- HB. apply rounds_exact. exact Hvf.
Qed.

(** The remainder on a few doubles, as Python prints it: [(-1) % 360],
    [725.5 % 360], [1e22 % 360], [(-1e22) % 360], [360.1 % 360] and
    [(-1e-20) % 360], the last one being the divisor itself. *)
Example rem_examples :
  PyFloat.rem (-1) 360 = Ok 359%float /\
  PyFloat.rem 725.5 360 = Ok 5.5%float /\
  PyFloat.rem 1e22 360 = Ok 280%float /\
  PyFloat.rem (-1e22) 360 = Ok 80%float /\
  PyFloat.rem 360.1 360 = Ok 0.10000000000002274%float /\
  PyFloat.rem (-1e-20) 360 = Ok 360%float.
Proof. repeat split; reflexivity. Qed.

(** ** The angle factor on every finite double *)

Lemma in_range_weaken a b a' b' z :
  in_range a b z -> val a' <= val a -> val b <= val b' -> in_range a' b' z.
Proof. intros (Hn & Hlo & Hhi) Ha Hb. split; [assumption|lra]. Qed.

Lemma slope_range d :
  in_range 0 90 d -> in_range 0 (1 - 0.1) ((d / 90) * (1 - 0.1))%float.
Proof.
  intros (Hn & Hlo & Hhi). rewrite val_0, val_90 in *.
  assert (in_range 0 1 (d / 90)%float) as (Hnq & Hq).
  { apply (in_range_intro (val d / val 90) _ _ (val 0%float) _ (val 1%float)).
    - apply div_rounds0; [assumption|reflexivity].
    - apply self_rounds0. reflexivity.
    - apply self_rounds0. reflexivity.
    - reflexivity.
    - reflexivity.
    - rewrite val_0, val_1, val_90. lra. }
  rewrite val_0, val_1 in Hq.
  apply (in_range_intro (val (d / 90)%float * val (1 - 0.1)%float)
           _ _ (val 0%float) _ (val (1 - 0.1)%float)).
  - apply mul_rounds0; [assumption|reflexivity].
  - apply self_rounds0. reflexivity.
  - apply self_rounds0. reflexivity.
  - reflexivity.
  - reflexivity.
  - rewrite val_0, val_0_9. nra.
Qed.

Lemma falling_range p :
  in_range 0 (1 - 0.1) p -> in_range factor_floor 1 (1 - p)%float.
Proof.
  intros (Hn & Hlo & Hhi). rewrite val_0, val_0_9 in *.
  apply (in_range_intro (val 1%float - val p) _ _ (val factor_floor) _ (val 1%float)).
  - apply sub_rounds0; [reflexivity|apply fin_nonneg_any; assumption|].
    rewrite val_1. lra.
  - apply self_rounds0. reflexivity.
  - apply self_rounds0. reflexivity.
  - reflexivity.
  - reflexivity.
  - unfold factor_floor. rewrite val_floor, val_1. lra.
Qed.

Lemma rising_range p :
  in_range 0 (1 - 0.1) p -> in_range 0.1 1 (0.1 + p)%float.
Proof.
  intros (Hn & Hlo & Hhi). rewrite val_0, val_0_9 in *.
  apply (in_range_intro (val 0.1%float + val p) _ _ (val 0.1%float) _
           (val 0.1%float + val (1 - 0.1)%float)).
  - apply add_rounds0; [reflexivity|apply fin_nonneg_any; assumption|].
    rewrite val_0_1. lra.
  - apply self_rounds0. reflexivity.
  - change 1%float with (0.1 + (1 - 0.1))%float.
    apply add_rounds0; [reflexivity|reflexivity|].
    rewrite val_0_1, val_0_9. lra.
  - reflexivity.
  - reflexivity.
  - rewrite val_0_9. lra.
Qed.

Lemma offset_range n c :
  fin_nonneg n = true -> fin_nonneg c = true ->
  val c <= val n <= val c + 90 ->
  in_range 0 90 (n - c)%float.
Proof.
  intros Hn Hc Hb.
  apply (in_range_intro (val n - val c) _ _ (val 0%float) _ (val 90%float)).
  - apply sub_rounds0; try (apply fin_nonneg_any; assumption). lra.
  - apply self_rounds0. reflexivity.
  - apply self_rounds0. reflexivity.
  - reflexivity.
  - reflexivity.
  - rewrite val_0, val_90. lra.
Qed.

Lemma floor_le_0_1 : val factor_floor <= val 0.1%float.
Proof. unfold factor_floor. rewrite val_floor, val_0_1. lra. Qed.

Lemma quadrant_1_range n :
  fin_nonneg n = true -> 0 <= val n <= 90 ->
  exists f, quadrant_1 n = Ok f /\ in_range factor_floor 1 f.
Proof.
  intros Hn Hb. eexists. split; [reflexivity|].
  apply falling_range, slope_range. split; [assumption|].
  rewrite val_0, val_90. assumption.
Qed.

Lemma quadrant_2_range n :
  fin_nonneg n = true -> 90 <= val n <= 180 ->
  exists f, quadrant_2 n = Ok f /\ in_range factor_floor 1 f.
Proof.
  intros Hn Hb. eexists. split; [reflexivity|].
  eapply in_range_weaken; [apply rising_range, slope_range| |lra].
  - apply (offset_range n 90); [assumption|reflexivity|]. rewrite val_90. lra.
  - apply floor_le_0_1.
Qed.

Lemma quadrant_3_range n :
  fin_nonneg n = true -> 180 <= val n <= 270 ->
  exists f, quadrant_3 n = Ok f /\ in_range factor_floor 1 f.
Proof.
  intros Hn Hb. eexists. split; [reflexivity|].
  apply falling_range, slope_range.
  apply (offset_range n 180); [assumption|reflexivity|]. rewrite val_180. lra.
Qed.

Lemma quadrant_4_range n :
  fin_nonneg n = true -> 270 <= val n <= 360 ->
  exists f, quadrant_4 n = Ok f /\ in_range factor_floor 1 f.
Proof.
  intros Hn Hb. eexists. split; [reflexivity|].
  eapply in_range_weaken; [apply rising_range, slope_range| |lra].
  - apply (offset_range n 270); [assumption|reflexivity|]. rewrite val_270. lra.
  - apply floor_le_0_1.
Qed.

Lemma rem_360_range x :
  is_finite x = true ->
  exists n, PyFloat.rem x 360 = Ok n /\ in_range 0 360 n.
Proof.
  intros Hfin.
  destruct (rem_360_spec x Hfin) as (n & q & rho & Hrem & _ & Hrho & Hr).
  exists n. split; [assumption|].
  apply (in_range_intro rho _ _ (val 0%float) _ (val 360%float)).
  - left. assumption.
  - apply self_rounds0. reflexivity.
  - apply self_rounds0. reflexivity.
  - reflexivity.
  - reflexivity.
  - rewrite val_0, val_360. lra.
Qed.

Lemma leb_val_false x y :
  fin_nonneg x = true -> fin_nonneg y = true ->
  (x <=? y)%float = false -> val y < val x.
Proof.
  intros Hx Hy Hf. destruct (Rle_or_lt (val x) (val y)) as [Hle|]; [|assumption].
  apply (leb_val x y Hx Hy) in Hle. congruence.
Qed.

(** For every finite angle the factor is computed, without an exception,
    between [1 - 0.9] and [1]. *)
Lemma calculate_angle_factor_range angle :
  is_finite angle = true ->
  exists f, calculate_angle_factor angle = Ok f /\ in_range factor_floor 1 f.
Proof.
  intros Hfin. unfold calculate_angle_factor.
  destruct (rem_360_range angle Hfin) as (n & -> & Hn & Hlo & Hhi).
  rewrite val_0, val_360 in *. cbn [bind].
  assert (fin_nonneg 90 = true) as H90 by reflexivity.
  assert (fin_nonneg 180 = true) as H180 by reflexivity.
  assert (fin_nonneg 270 = true) as H270 by reflexivity.
  assert ((0 <=? n)%float = true) as ->
      by (apply leb_val; [reflexivity|assumption|rewrite val_0; assumption]).
  cbn [andb].
  destruct (n <=? 90)%float eqn:L90.
  { apply quadrant_1_range; [assumption|].
    apply leb_val in L90; try assumption. rewrite val_90 in L90. lra. }
  apply leb_val_false in L90; try assumption. rewrite val_90 in L90.
  assert ((90 <? n)%float = true) as ->
      by (apply ltb_val; [reflexivity|assumption|rewrite val_90; assumption]).
  cbn [andb].
  destruct (n <=? 180)%float eqn:L180.
  { apply quadrant_2_range; [assumption|].
    apply leb_val in L180; try assumption. rewrite val_180 in L180. lra. }
  apply leb_val_false in L180; try assumption. rewrite val_180 in L180.
  assert ((180 <? n)%float = true) as ->
      by (apply ltb_val; [reflexivity|assumption|rewrite val_180; assumption]).
  cbn [andb].
  destruct (n <=? 270)%float eqn:L270.
  { apply quadrant_3_range; [assumption|].
    apply leb_val in L270; try assumption. rewrite val_270 in L270. lra. }
  apply leb_val_false in L270; try assumption. rewrite val_270 in L270.
  apply quadrant_4_range; [assumption|lra].
Qed.

(** ** The two divisions of the pipeline *)

Lemma in_range_floor_pos f : in_range factor_floor 1 f -> fin_pos f = true.
Proof.
  intros (Hn & Hlo & _). apply val_pos_fin_pos; [assumption|].
  unfold factor_floor in Hlo. rewrite val_floor in Hlo. lra.
Qed.

(** Dividing a positive constant by the factor: no exception, and the
    quotient lies between the constant and its quotient by [factor_floor]. *)
Lemma divisor_over_factor c f :
  fin_pos c = true -> fin_nonneg (c / factor_floor) = true ->
  in_range factor_floor 1 f ->
  PyFloat.truediv c f = Ok (c / f)%float /\
  in_range c (c / factor_floor) (c / f)%float /\
  fin_pos (c / f)%float = true.
Proof.
  intros Hc Hcf Hf. pose proof (in_range_floor_pos f Hf) as Hfp.
  destruct Hf as (Hn & Hlo & Hhi).
  unfold factor_floor in Hlo. rewrite val_floor in Hlo. rewrite val_1 in Hhi.
  pose proof (fin_pos_val c Hc) as Hcv.
  assert (in_range c (c / factor_floor) (c / f)%float) as Hr.
  { apply (in_range_intro (val c / val f) _ _ (val c) _ (val c / val factor_floor)).
    - left. apply div_pos_rounds; assumption.
    - apply self_rounds0, fin_pos_nonneg; assumption.
    - left. apply div_pos_rounds; [assumption|reflexivity].
    - apply fin_pos_nonneg; assumption.
    - assumption.
    - unfold factor_floor. rewrite val_floor.
      assert (0 < val f) by lra.
      split.
      + unfold Rdiv. rewrite <- (Rmult_1_r (val c)) at 1.
        apply Rmult_le_compat_l; [lra|].
        rewrite <- Rinv_1. apply Rinv_le_contravar; lra.
      + unfold Rdiv. apply Rmult_le_compat_l; [lra|].
        apply Rinv_le_contravar; lra. }
  split; [|split; [assumption|]].
  - unfold PyFloat.truediv. rewrite (fin_pos_nonzero f Hfp). reflexivity.
  - destruct Hr as (Hnr & Hlor & _). apply val_pos_fin_pos; [assumption|lra].
Qed.

Lemma truediv_by_pos a b :
  fin_pos b = true -> PyFloat.truediv a b = Ok (a / b)%float.
Proof.
  intros Hb. unfold PyFloat.truediv. rewrite (fin_pos_nonzero b Hb). reflexivity.
Qed.

Lemma fin_pos_ltb x : fin_pos x = true -> (0 <? x)%float = true.
Proof.
  intros Hx. apply ltb_val; [reflexivity|apply fin_pos_nonneg; assumption|].
  rewrite val_0. apply fin_pos_val. assumption.
Qed.

(** [calculate_angle_factor] has no failure path, whatever the double. *)
Lemma calculate_angle_factor_total angle :
  exists f, calculate_angle_factor angle = Ok f.
Proof.
  unfold calculate_angle_factor, PyFloat.rem.
  change (360 =? 0)%float with false. cbv iota. cbn [bind].
  repeat match goal with
         | |- context [if ?b then _ else _] => destruct b
         end; eexists; reflexivity.
Qed.

(** ** Case-insensitive comparison *)

Lemma nat_of_lower_ascii c :
  nat_of_ascii (lower_ascii c) =
  if is_upper (nat_of_ascii c) then (nat_of_ascii c + 32)%nat else nat_of_ascii c.
Proof.
  unfold lower_ascii, is_upper.
  destruct ((65 <=? nat_of_ascii c)%nat && (nat_of_ascii c <=? 90)%nat) eqn:H;
    [|reflexivity].
  apply andb_true_iff in H. destruct H as [H1 H2].
  apply Nat.leb_le in H1, H2.
  apply nat_ascii_embedding. lia.
Qed.

Lemma nat_of_ascii_inj a b : nat_of_ascii a = nat_of_ascii b -> a = b.
Proof.
  intros H. rewrite <- (ascii_nat_embedding a), <- (ascii_nat_embedding b), H.
  reflexivity.
Qed.

Lemma eq_nocase_ascii_lower a b :
  eq_nocase_ascii a b = Ascii.eqb (lower_ascii a) (lower_ascii b).
Proof.
  destruct (Ascii.eqb_spec (lower_ascii a) (lower_ascii b)) as [He|Hne].
  - apply (f_equal nat_of_ascii) in He. rewrite !nat_of_lower_ascii in He.
    unfold eq_nocase_ascii, is_upper in *.
    destruct (Nat.leb_spec 65 (nat_of_ascii a)), (Nat.leb_spec (nat_of_ascii a) 90),
      (Nat.leb_spec 65 (nat_of_ascii b)), (Nat.leb_spec (nat_of_ascii b) 90);
      cbn [andb orb] in *;
      repeat match goal with
        | |- context [(?x =? ?y)%nat] => destruct (Nat.eqb_spec x y)
        end; cbn [andb orb]; try reflexivity; lia.
  - assert (nat_of_ascii (lower_ascii a) <> nat_of_ascii (lower_ascii b)) as Hn
        by (intros H; apply Hne, nat_of_ascii_inj, H).
    rewrite !nat_of_lower_ascii in Hn.
    unfold eq_nocase_ascii, is_upper in *.
    destruct (Nat.leb_spec 65 (nat_of_ascii a)), (Nat.leb_spec (nat_of_ascii a) 90),
      (Nat.leb_spec 65 (nat_of_ascii b)), (Nat.leb_spec (nat_of_ascii b) 90);
      cbn [andb orb] in *;
      repeat match goal with
        | |- context [(?x =? ?y)%nat] => destruct (Nat.eqb_spec x y)
        end; cbn [andb orb]; try reflexivity; lia.
Qed.

Lemma eq_nocase_lower s : forall t,
  eq_nocase s t = String.eqb (lower s) (lower t).
Proof.
  induction s as [|a s IH]; intros [|b t]; cbn [eq_nocase lower String.eqb];
    try reflexivity.
  rewrite eq_nocase_ascii_lower, IH.
  destruct (Ascii.eqb (lower_ascii a) (lower_ascii b)); reflexivity.
Qed.

Lemma matches_word s w :
  lower w = w -> (String.eqb (lower s) w = eq_nocase s w).
Proof. intros Hw. rewrite eq_nocase_lower, Hw. reflexivity. Qed.

(** ** The run of the pipeline *)

Lemma lower_headwind s :
  String.eqb (lower s) "headwind" = eq_nocase s "headwind".
Proof. apply matches_word. reflexivity. Qed.

Lemma lower_tailwind s :
  String.eqb (lower s) "tailwind" = eq_nocase s "tailwind".
Proof. apply matches_word. reflexivity. Qed.

Lemma head_not_tail s :
  eq_nocase s "headwind" = true -> eq_nocase s "tailwind" = false.
Proof.
  rewrite <- lower_headwind, <- lower_tailwind. intros H.
  apply String.eqb_eq in H. rewrite H. reflexivity.
Qed.

Lemma tail_not_head s :
  eq_nocase s "tailwind" = true -> eq_nocase s "headwind" = false.
Proof.
  rewrite <- lower_headwind, <- lower_tailwind. intros H.
  apply String.eqb_eq in H. rewrite H. reflexivity.
Qed.

(** The run of [calculate_steps] on a recognised direction and a finite
    angle: both divisions go through and the trace is the full one. *)
Lemma calculate_steps_run float_str float_4f distance wind angle wd :
  is_finite angle = true ->
  eq_nocase wd "headwind" = true \/ eq_nocase wd "tailwind" = true ->
  exists factor,
    calculate_angle_factor angle = Ok factor /\
    in_range factor_floor 1 factor /\
    let tail := eq_nocase wd "tailwind" in
    let divisor := (if tail then 225 else 180)%float in
    let step_1 := (distance * wind)%float in
    let step_2 := (divisor / factor)%float in
    let step_3 := (step_1 / step_2)%float in
    let adjusted := (if tail then distance - step_3 else distance + step_3)%float in
    fin_pos step_2 = true /\
    calculate_steps float_str float_4f distance wind angle wd =
    Ok [("step_1",
         step_entry (float_str distance ++ " * " ++ float_str wind) step_1);
        ("angle_factor", PFloat factor);
        ("step_2",
         PDict [("divisor", PFloat divisor);
                ("formula", PStr (float_str divisor ++ " / " ++ float_4f factor));
                ("result", PFloat step_2)]);
        ("step_3",
         step_entry (float_4f step_1 ++ " / " ++ float_4f step_2) step_3);
        ("step_4",
         step_entry (float_str distance ++ (if tail then " - " else " + ")
                       ++ float_4f step_3) adjusted);
        ("adjusted_distance", PFloat adjusted)]%string.
Proof.
  intros Hfin Hdir.
  destruct (calculate_angle_factor_range angle Hfin) as (factor & Hcaf & Hr).
  exists factor. split; [assumption|]. split; [assumption|].
  unfold calculate_steps. rewrite Hcaf. cbn [bind].
  rewrite lower_tailwind, lower_headwind.
  destruct Hdir as [Hh|Ht].
  - rewrite (head_not_tail _ Hh), Hh. cbv zeta.
    destruct (divisor_over_factor 180 factor eq_refl eq_refl Hr) as (Hd & _ & Hp).
    split; [assumption|].
    rewrite Hd. cbn [bind]. rewrite (truediv_by_pos _ _ Hp). reflexivity.
  - rewrite Ht, (tail_not_head _ Ht). cbv zeta.
    destruct (divisor_over_factor 225 factor eq_refl eq_refl Hr) as (Hd & _ & Hp).
    split; [assumption|].
    rewrite Hd. cbn [bind]. rewrite (truediv_by_pos _ _ Hp). reflexivity.
Qed.
Lemma SFeqb_refl_finite s m e :
  SFeqb (S754_finite s m e) (S754_finite s m e) = true.
Proof.
  unfold SFeqb, SFcompare. rewrite Z.compare_refl, Pos.compare_cont_refl.
  destruct s; reflexivity.
Qed.

(** A double that is not finite is one of three. *)
Lemma not_finite_cases x :
  is_finite x = false -> x = nan \/ x = infinity \/ x = neg_infinity.
Proof.
  unfold is_finite, is_nan, is_infinity.
  rewrite !FloatAxioms.eqb_spec, FloatAxioms.abs_spec. spec_of infinity.
  intros H. rewrite <- (SF2Prim_Prim2SF x).
  destruct (Prim2SF x) as [s|[]| |s m e]; cbn [SFabs] in H.
  - destruct s; discriminate H.
  - right. right. reflexivity.
  - right. left. reflexivity.
  - left. reflexivity.
  - rewrite SFeqb_refl_finite in H. discriminate H.
Qed.

(** Whatever the three doubles and the direction, [calculate_steps] returns:
    the exception is never raised. *)
Lemma calculate_steps_total float_str float_4f distance wind angle wd :
  exists res, calculate_steps float_str float_4f distance wind angle wd = Ok res.
Proof.
  destruct (is_finite angle) eqn:Hfin.
  - destruct (eq_nocase wd "tailwind") eqn:Ht.
    + destruct (calculate_steps_run float_str float_4f distance wind angle wd
                  Hfin (or_intror Ht)) as (f & _ & _ & _ & Hrun).
      eexists. exact Hrun.
    + destruct (eq_nocase wd "headwind") eqn:Hh.
      * destruct (calculate_steps_run float_str float_4f distance wind angle wd
                    Hfin (or_introl Hh)) as (f & _ & _ & _ & Hrun).
        eexists. exact Hrun.
      * destruct (calculate_angle_factor_total angle) as (f & Hf).
        unfold calculate_steps. rewrite Hf. cbn [bind].
        rewrite lower_tailwind, lower_headwind, Ht, Hh. eexists. reflexivity.
  - unfold calculate_steps. rewrite lower_tailwind, lower_headwind.
    destruct (not_finite_cases angle Hfin) as [->|[->| ->]];
      destruct (eq_nocase wd "tailwind"), (eq_nocase wd "headwind");
      eexists; reflexivity.
Qed.

(** ** Helpers for the statements *)

Lemma val_factor_floor : 1 / 10 - / 2 ^ 55 <= val factor_floor.
Proof. unfold factor_floor. rewrite val_floor. lra. Qed.

Lemma Ok_float_neq (a b : float) :
  PrimFloat.Leibniz.eqb a b = false -> @Ok float a <> Ok b.
Proof.
  intros Hne Heq. injection Heq as Heq.
  apply FloatAxioms.Leibniz.eqb_spec in Heq. congruence.
Qed.

Lemma remainder_unique q1 r1 q2 r2 :
  360 * IZR q1 + r1 = 360 * IZR q2 + r2 ->
  0 <= r1 < 360 -> 0 <= r2 < 360 -> r1 = r2.
Proof.
  intros Heq H1 H2.
  assert (IZR (q1 - q2) = (r2 - r1) / 360) as Hd by (rewrite minus_IZR; lra).
  assert (q1 - q2 = 0)%Z as Hz.
  { apply one_IZR_lt1. rewrite Hd. lra. }
  rewrite Hz in Hd. lra.
Qed.

Lemma calculate_steps_lower float_str float_4f distance wind angle s t :
  lower s = lower t ->
  calculate_steps float_str float_4f distance wind angle s =
  calculate_steps float_str float_4f distance wind angle t.
Proof. intros H. unfold calculate_steps. rewrite H. reflexivity. Qed.

(** * The properties of the specification *)

(** C1: for finite [distance], [wind] and [angle] and a direction that is
    "headwind" or "tailwind" up to case, [calculate_steps] returns a trace
    whose entries are [step1 = distance * wind], the factor of
    [calculate_angle_factor angle], the divisor 225 (tailwind) or 180
    (headwind), [step2 = divisor / factor], [step3 = step1 / step2], and the
    adjusted distance [distance - step3] (tailwind) or [distance + step3]
    (headwind), the latter both under [step_4] and at the top level. *)
Theorem calculate_steps_trace :
  forall float_str float_4f distance wind angle wind_direction,
    is_finite distance = true -> is_finite wind = true -> is_finite angle = true ->
    eq_nocase wind_direction "headwind" = true \/
    eq_nocase wind_direction "tailwind" = true ->
    exists factor res,
      calculate_angle_factor angle = Ok factor /\
      calculate_steps float_str float_4f distance wind angle wind_direction = Ok res /\
      let tailwind := eq_nocase wind_direction "tailwind" in
      let step1 := (distance * wind)%float in
      let divisor := (if tailwind then 225 else 180)%float in
      let step2 := (divisor / factor)%float in
      let step3 := (step1 / step2)%float in
      let adjusted_distance :=
        (if tailwind then distance - step3 else distance + step3)%float in
      dict_field res "step_1" "result" = Some (PFloat step1) /\
      dict_get res "angle_factor" = Some (PFloat factor) /\
      dict_field res "step_2" "divisor" = Some (PFloat divisor) /\
      dict_field res "step_2" "result" = Some (PFloat step2) /\
      dict_field res "step_3" "result" = Some (PFloat step3) /\
      dict_field res "step_4" "result" = Some (PFloat adjusted_distance) /\
      dict_get res "adjusted_distance" = Some (PFloat adjusted_distance).
Proof.
  intros float_str float_4f distance wind angle wd _ _ Hangle Hdir.
  destruct (calculate_steps_run float_str float_4f distance wind angle wd Hangle Hdir)
    as (factor & Hcaf & _ & _ & Hrun).
  exists factor. eexists. split; [exact Hcaf|]. split; [exact Hrun|].
  cbv zeta. repeat split; reflexivity.
Qed.

(** [calculate_steps_trace] on 150 yards, wind 12, 45 degrees, "TailWind". *)
Lemma calculate_steps_trace_witness :
  is_finite 150 = true /\ is_finite 12 = true /\ is_finite 45 = true /\
  eq_nocase "TailWind" "tailwind" = true /\
  exists factor res,
    calculate_angle_factor 45 = Ok factor /\
    calculate_steps no_render no_render 150 12 45 "TailWind" = Ok res /\
    dict_field res "step_1" "result" = Some (PFloat (150 * 12)) /\
    dict_get res "angle_factor" = Some (PFloat factor) /\
    dict_field res "step_2" "divisor" = Some (PFloat 225) /\
    dict_field res "step_2" "result" = Some (PFloat (225 / factor)) /\
    dict_field res "step_3" "result" = Some (PFloat (150 * 12 / (225 / factor))) /\
    dict_field res "step_4" "result" =
      Some (PFloat (150 - 150 * 12 / (225 / factor))) /\
    dict_get res "adjusted_distance" =
      Some (PFloat (150 - 150 * 12 / (225 / factor))).
Proof.
  repeat (split; [reflexivity|]).
  exact (calculate_steps_trace no_render no_render 150 12 45 "TailWind"
           eq_refl eq_refl eq_refl (or_intror eq_refl)).
Defined.

(** C2, as stated, fails at 90 degrees: the first quadrant's formula gives
    [1 - 1 * 0.9], which binary64 rounds to 0.09999999999999998, and the
    comparison [0.1 <= factor] is false. *)
Lemma angle_factor_below_tenth_at_90 :
  calculate_angle_factor 90 = Ok 0.09999999999999998%float /\
  (0.1 <=? 0.09999999999999998)%float = false /\
  val 0.09999999999999998 < 1 / 10.
Proof.
  split; [reflexivity|]. split; [reflexivity|].
  change 0.09999999999999998%float with factor_floor.
  unfold factor_floor. rewrite val_floor. lra.
Qed.

(** C2 (amended): for every finite angle, [calculate_angle_factor] returns
    a factor between [1 - 0.9 = 0.09999999999999998] and [1.0], so never
    more than [2^-55] below 0.1. *)
Theorem angle_factor_bounds :
  forall angle,
    is_finite angle = true ->
    exists f,
      calculate_angle_factor angle = Ok f /\
      (factor_floor <=? f)%float = true /\ (f <=? 1)%float = true /\
      1 / 10 - / 2 ^ 55 <= val f <= 1.
Proof.
  intros angle Hfin.
  destruct (calculate_angle_factor_range angle Hfin) as (f & Hcaf & Hn & Hlo & Hhi).
  exists f. split; [exact Hcaf|].
  split; [apply leb_val; [reflexivity|assumption|assumption]|].
  split; [apply leb_val; [assumption|reflexivity|assumption]|].
  pose proof val_factor_floor. rewrite val_1 in Hhi. lra.
Qed.

(** [angle_factor_bounds] at 270 degrees, where the floor is reached. *)
Lemma angle_factor_bounds_witness :
  is_finite 270 = true /\
  exists f,
    calculate_angle_factor 270 = Ok f /\
    (factor_floor <=? f)%float = true /\ (f <=? 1)%float = true /\
    1 / 10 - / 2 ^ 55 <= val f <= 1.
Proof. split; [reflexivity|]. exact (angle_factor_bounds 270 eq_refl). Defined.

(** C3: [calculate_steps] returns the failure value exactly when the
    direction is neither "headwind" nor "tailwind" up to case, and the
    failure value is the dictionary with the single key [error] and the
    fixed message: no step, factor or adjusted-distance entry. *)
Theorem invalid_direction_is_reported :
  forall float_str float_4f distance wind angle wind_direction,
    (is_failure (calculate_steps float_str float_4f distance wind angle wind_direction)
       = true <->
     eq_nocase wind_direction "headwind" = false /\
     eq_nocase wind_direction "tailwind" = false) /\
    (is_failure (calculate_steps float_str float_4f distance wind angle wind_direction)
       = true ->
     exists res,
       calculate_steps float_str float_4f distance wind angle wind_direction = Ok res /\
       res = [("error"%string,
               PStr "Invalid wind direction. Please use 'headwind' or 'tailwind'.")] /\
       forall key, key <> "error"%string -> dict_get res key = None).
Proof.
  assert (forall key, key <> "error"%string ->
            dict_get [("error"%string, PStr invalid_wind_direction)] key = None)
    as Honly.
  { intros key Hkey. cbn [dict_get].
    destruct (String.eqb_spec "error" key) as [Heq|_]; [|reflexivity].
    symmetry in Heq. contradiction. }
  intros float_str float_4f distance wind angle wd.
  destruct (calculate_angle_factor_total angle) as (factor & Hcaf).
  unfold calculate_steps. rewrite Hcaf. cbn [bind].
  rewrite lower_tailwind, lower_headwind.
  destruct (eq_nocase wd "tailwind") eqn:Ht.
  - rewrite (tail_not_head _ Ht).
    destruct (PyFloat.truediv 225 factor) as [step_2|e]; cbn [bind];
      [destruct (PyFloat.truediv (distance * wind) step_2) as [step_3|e];
       cbn [bind]|];
      (split; [split; [discriminate|intros [_ H]; discriminate]|discriminate]).
  - destruct (eq_nocase wd "headwind") eqn:Hh.
    + destruct (PyFloat.truediv 180 factor) as [step_2|e]; cbn [bind];
        [destruct (PyFloat.truediv (distance * wind) step_2) as [step_3|e];
         cbn [bind]|];
        (split; [split; [discriminate|intros [H _]; discriminate]|discriminate]).
    + split; [split; [intros _; split; reflexivity|reflexivity]|].
      intros _. eexists. split; [reflexivity|]. split; [reflexivity|exact Honly].
Qed.

(** [invalid_direction_is_reported] on the direction "bogus". *)
Lemma invalid_direction_is_reported_witness :
  is_failure (calculate_steps no_render no_render 103 15 0 "bogus") = true /\
  exists res,
    calculate_steps no_render no_render 103 15 0 "bogus" = Ok res /\
    res = [("error"%string,
            PStr "Invalid wind direction. Please use 'headwind' or 'tailwind'.")] /\
    forall key, key <> "error"%string -> dict_get res key = None.
Proof.
  split; [reflexivity|].
  exact (proj2 (invalid_direction_is_reported no_render no_render 103 15 0 "bogus")
           eq_refl).
Defined.

(** C4: on [(103, 15, 0, "headwind")] the trace holds 1545, factor 1.0,
    divisor 180, [step2 = 180], [step3 = 1545/180] and the adjusted distance
    [103 + 1545/180]; on "tailwind" divisor and [step2] are 225,
    [step3 = 1545/225] and the adjusted distance is [103 - 1545/225]; the
    quotients and the sums are the doubles nearest the exact values
    (8.5833..., 111.5833..., 6.8666..., 96.1333...). *)
Theorem worked_example :
  forall float_str float_4f,
    calculate_steps float_str float_4f 103 15 0 "headwind" =
      Ok [("step_1",
           step_entry (float_str 103%float ++ " * " ++ float_str 15%float) 1545);
          ("angle_factor", PFloat 1);
          ("step_2",
           PDict [("divisor", PFloat 180);
                  ("formula", PStr (float_str 180%float ++ " / " ++ float_4f 1%float));
                  ("result", PFloat 180)]);
          ("step_3",
           step_entry (float_4f 1545%float ++ " / " ++ float_4f 180%float)
             (1545 / 180));
          ("step_4",
           step_entry (float_str 103%float ++ " + " ++ float_4f (1545 / 180)%float)
             (103 + 1545 / 180));
          ("adjusted_distance", PFloat (103 + 1545 / 180))]%string /\
    calculate_steps float_str float_4f 103 15 0 "tailwind" =
      Ok [("step_1",
           step_entry (float_str 103%float ++ " * " ++ float_str 15%float) 1545);
          ("angle_factor", PFloat 1);
          ("step_2",
           PDict [("divisor", PFloat 225);
                  ("formula", PStr (float_str 225%float ++ " / " ++ float_4f 1%float));
                  ("result", PFloat 225)]);
          ("step_3",
           step_entry (float_4f 1545%float ++ " / " ++ float_4f 225%float)
             (1545 / 225));
          ("step_4",
           step_entry (float_str 103%float ++ " - " ++ float_4f (1545 / 225)%float)
             (103 - 1545 / 225));
          ("adjusted_distance", PFloat (103 - 1545 / 225))]%string /\
    Rabs (val (1545 / 180) - 1545 / 180) <= / 10 ^ 15 /\
    Rabs (val (103 + 1545 / 180) - (103 + 1545 / 180)) <= / 10 ^ 13 /\
    Rabs (val (1545 / 225) - 1545 / 225) <= / 10 ^ 15 /\
    Rabs (val (103 - 1545 / 225) - (103 - 1545 / 225)) <= / 10 ^ 13.
Proof.
  intros float_str float_4f.
  split; [reflexivity|]. split; [reflexivity|].
  repeat split; apply Rabs_le;
    match goal with
    | |- context [val ?c] => val_const c
    end.
Qed.

(** C5, as stated, fails once the shifted angle is formed in binary64:
    [0.1 + 360 * 1] rounds to 360.1, whose remainder by 360 is not 0.1, and
    the two factors differ (0.9989999999999998 against 0.999). *)
Lemma periodicity_fails_on_rounded_shift :
  calculate_angle_factor 0.1 = Ok 0.999%float /\
  calculate_angle_factor (0.1 + 360 * 1) = Ok 0.9989999999999998%float /\
  calculate_angle_factor (0.1 + 360 * 1) <> calculate_angle_factor 0.1.
Proof.
  split; [reflexivity|]. split; [reflexivity|].
  vm_compute. apply Ok_float_neq. reflexivity.
Qed.

(** C5 (amended): [calculate_angle_factor] takes the same value on any two
    finite doubles, of either sign, whose real values differ by exactly an
    integer multiple of 360. *)
Theorem angle_factor_periodic :
  forall (angle shifted : float) (k : Z),
    is_finite angle = true -> is_finite shifted = true ->
    val shifted = val angle + 360 * IZR k ->
    calculate_angle_factor shifted = calculate_angle_factor angle.
Proof.
  intros x y k Hx Hy Hval.
  destruct (rem_360_spec x Hx) as (n1 & q1 & r1 & Hrem1 & Hs1 & Hr1 & Hn1).
  destruct (rem_360_spec y Hy) as (n2 & q2 & r2 & Hrem2 & Hs2 & Hr2 & Hn2).
  assert (r2 = r1) as Hr.
  { apply (remainder_unique q2 r2 (q1 + k) r1); try assumption.
    rewrite plus_IZR. lra. }
  rewrite Hr in Hn2.
  assert (n2 = n1) as Hn
      by (apply Prim2SF_inj; eapply rounds_unique; eassumption).
  unfold calculate_angle_factor. rewrite Hrem1, Hrem2, Hn. reflexivity.
Qed.

(** [angle_factor_periodic] from -349.5 to 730.5, three turns apart. *)
Lemma angle_factor_periodic_witness :
  is_finite (-349.5) = true /\ is_finite 730.5 = true /\
  val 730.5 = val (-349.5) + 360 * IZR 3 /\
  calculate_angle_factor 730.5 = calculate_angle_factor (-349.5).
Proof.
  assert (val 730.5 = val (-349.5) + 360 * IZR 3) as H.
  { unfold val. spec_of 730.5%float. spec_of (-349.5)%float.
    cbn [B2R cond_Zopp Z.opp]. unfold F2R. p2_consts. lra. }
  split; [reflexivity|]. split; [reflexivity|]. split; [exact H|].
  exact (angle_factor_periodic (-349.5) 730.5 3 eq_refl eq_refl H).
Defined.

(** C6: [calculate_angle_factor] returns 1.0 at 0 and at 180, exactly, and
    at 90 and at 270 a value within 1e-9 of 0.1, as a real number and as the
    test [abs(f - 0.1) <= 1e-9] evaluates it. *)
Theorem angle_factor_at_the_axes :
  (exists f,
     calculate_angle_factor 0 = Ok f /\ f = 1%float /\
     Rabs (val f - 1) <= / 10 ^ 9) /\
  (exists f,
     calculate_angle_factor 90 = Ok f /\
     Rabs (val f - 1 / 10) <= / 10 ^ 9 /\
     (abs (f - 0.1) <=? 1e-9)%float = true) /\
  (exists f,
     calculate_angle_factor 180 = Ok f /\ f = 1%float /\
     Rabs (val f - 1) <= / 10 ^ 9) /\
  (exists f,
     calculate_angle_factor 270 = Ok f /\
     Rabs (val f - 1 / 10) <= / 10 ^ 9 /\
     (abs (f - 0.1) <=? 1e-9)%float = true).
Proof.
  assert (Rabs (val 1 - 1) <= / 10 ^ 9) as Hone
      by (rewrite val_1; apply Rabs_le; lra).
  assert (Rabs (val factor_floor - 1 / 10) <= / 10 ^ 9) as Htenth
      by (unfold factor_floor; rewrite val_floor; apply Rabs_le; lra).
  split; [exists 1%float; split; [reflexivity|split; [reflexivity|exact Hone]]|].
  split;
    [exists factor_floor; split; [reflexivity|split; [exact Htenth|reflexivity]]|].
  split; [exists 1%float; split; [reflexivity|split; [reflexivity|exact Hone]]|].
  exists factor_floor; split; [reflexivity|split; [exact Htenth|reflexivity]].
Qed.

(** C7, as stated, fails at 90 degrees (and likewise at 270): the first
    quadrant's formula gives [1 - 1 * 0.9 = 0.09999999999999998] there and
    the second quadrant's gives [0.1 + 0 * 0.9 = 0.1]. *)
Lemma adjacent_formulas_differ_at_90 :
  quadrant_1 90 = Ok 0.09999999999999998%float /\
  quadrant_2 90 = Ok 0.1%float /\
  quadrant_1 90 <> quadrant_2 90.
Proof.
  split; [reflexivity|]. split; [reflexivity|].
  vm_compute. apply Ok_float_neq. reflexivity.
Qed.

(** C7 (amended): an angle whose normalised value is a boundary is
    evaluated by the lower quadrant's formula (90 by the first, 180 by the
    second, 270 by the third, and a normalised 360, which [% 360] yields for
    a tiny negative angle, by the fourth); the adjacent formulas agree
    exactly at 180 and at the wrap from 360 to 0, and at 90 and 270 they
    differ by [2^-55], one rounding of [1 - 0.9]. *)
Theorem boundaries_follow_the_lower_quadrant :
  (forall angle normalized,
     PyFloat.rem angle 360 = Ok normalized ->
     (normalized = 90%float -> calculate_angle_factor angle = quadrant_1 90) /\
     (normalized = 180%float -> calculate_angle_factor angle = quadrant_2 180) /\
     (normalized = 270%float -> calculate_angle_factor angle = quadrant_3 270) /\
     (normalized = 360%float -> calculate_angle_factor angle = quadrant_4 360)) /\
  PyFloat.rem (-1e-20) 360 = Ok 360%float /\
  quadrant_2 180 = quadrant_3 180 /\
  quadrant_4 360 = quadrant_1 0 /\
  (exists below above,
     quadrant_1 90 = Ok below /\ quadrant_2 90 = Ok above /\
     val above - val below = / 2 ^ 55) /\
  (exists below above,
     quadrant_3 270 = Ok below /\ quadrant_4 270 = Ok above /\
     val above - val below = / 2 ^ 55).
Proof.
  split.
  { intros angle normalized Hrem. unfold calculate_angle_factor.
    rewrite Hrem. cbn [bind].
    repeat split; intros ->; reflexivity. }
  repeat (split; [reflexivity|]).
  split; exists factor_floor, 0.1%float; (split; [reflexivity|]);
    (split; [reflexivity|]);
    unfold factor_floor; rewrite val_floor, val_0_1; lra.
Qed.

(** [boundaries_follow_the_lower_quadrant] at 450 degrees, normalised to 90. *)
Lemma boundaries_follow_the_lower_quadrant_witness :
  PyFloat.rem 450 360 = Ok 90%float /\
  calculate_angle_factor 450 = quadrant_1 90.
Proof.
  split; [reflexivity|].
  exact (proj1 (proj1 boundaries_follow_the_lower_quadrant 450%float 90%float
                  eq_refl) eq_refl).
Defined.

(** C8: a direction that equals "headwind" or "tailwind" up to the case of
    its letters gives the very result of the lowercase word: same trace,
    same divisor, same final addition or subtraction. *)
Theorem direction_case_is_ignored :
  forall float_str float_4f distance wind angle wind_direction canonical,
    canonical = "headwind"%string \/ canonical = "tailwind"%string ->
    eq_nocase wind_direction canonical = true ->
    calculate_steps float_str float_4f distance wind angle wind_direction =
    calculate_steps float_str float_4f distance wind angle canonical.
Proof.
  intros float_str float_4f distance wind angle wd canonical _ Hci.
  apply calculate_steps_lower.
  rewrite eq_nocase_lower in Hci. apply String.eqb_eq in Hci. exact Hci.
Qed.

(** [direction_case_is_ignored] on "HeadWind". *)
Lemma direction_case_is_ignored_witness :
  eq_nocase "HeadWind" "headwind" = true /\
  calculate_steps no_render no_render 103 15 0 "HeadWind" =
  calculate_steps no_render no_render 103 15 0 "headwind".
Proof.
  split; [reflexivity|].
  exact (direction_case_is_ignored no_render no_render 103 15 0
           "HeadWind" "headwind" (or_introl eq_refl) eq_refl).
Defined.

(** C9: for finite [distance], [wind] and [angle] and a recognised
    direction, the factor that [step_2] divides by is strictly positive, so
    is [step_2 = divisor / factor] that [step_3] divides by, and
    [calculate_steps] returns a trace: no [ZeroDivisionError] is raised. *)
Theorem divisions_never_by_zero :
  forall float_str float_4f distance wind angle wind_direction,
    is_finite distance = true -> is_finite wind = true -> is_finite angle = true ->
    eq_nocase wind_direction "headwind" = true \/
    eq_nocase wind_direction "tailwind" = true ->
    exists factor res,
      calculate_angle_factor angle = Ok factor /\
      (0 <? factor)%float = true /\
      (0 <? (if eq_nocase wind_direction "tailwind" then 225 else 180) / factor)%float
        = true /\
      calculate_steps float_str float_4f distance wind angle wind_direction = Ok res /\
      dict_has res "error" = false.
Proof.
  intros float_str float_4f distance wind angle wd _ _ Hangle Hdir.
  destruct (calculate_steps_run float_str float_4f distance wind angle wd Hangle Hdir)
    as (factor & Hcaf & Hr & Hp & Hrun).
  exists factor. eexists. split; [exact Hcaf|].
  split; [apply fin_pos_ltb, in_range_floor_pos; exact Hr|].
  split; [apply fin_pos_ltb; exact Hp|]. split; [exact Hrun|reflexivity].
Qed.

(** [divisions_never_by_zero] at 90 degrees, where the factor is least. *)
Lemma divisions_never_by_zero_witness :
  is_finite 103 = true /\ is_finite 15 = true /\ is_finite 90 = true /\
  eq_nocase "headwind" "headwind" = true /\
  exists factor res,
    calculate_angle_factor 90 = Ok factor /\
    (0 <? factor)%float = true /\
    (0 <? 180 / factor)%float = true /\
    calculate_steps no_render no_render 103 15 90 "headwind" = Ok res /\
    dict_has res "error" = false.
Proof.
  repeat (split; [reflexivity|]).
  exact (divisions_never_by_zero no_render no_render 103 15 90 "headwind"
           eq_refl eq_refl eq_refl (or_introl eq_refl)).
Defined.

(** C10: on a successful call the trace holds [step_4], and its [result] is
    the very float stored under [adjusted_distance]. *)
Theorem step_4_matches_adjusted_distance :
  forall float_str float_4f distance wind angle wind_direction res,
    calculate_steps float_str float_4f distance wind angle wind_direction = Ok res ->
    dict_has res "error" = false ->
    exists adjusted step_4,
      dict_get res "adjusted_distance" = Some (PFloat adjusted) /\
      dict_get res "step_4" = Some (PDict step_4) /\
      dict_get step_4 "result" = Some (PFloat adjusted).
Proof.
  intros float_str float_4f distance wind angle wd res Hcall Herr.
  unfold calculate_steps in Hcall.
  destruct (calculate_angle_factor angle) as [factor|e]; cbn [bind] in Hcall;
    [|discriminate].
  destruct (String.eqb (lower wd) "tailwind") eqn:Htail.
  - apply String.eqb_eq in Htail. rewrite Htail in Hcall. cbn [String.eqb] in Hcall.
    destruct (PyFloat.truediv 225 factor) as [step_2|e]; cbn [bind] in Hcall;
      [|discriminate].
    destruct (PyFloat.truediv (distance * wind) step_2) as [step_3|e];
      cbn [bind] in Hcall; [|discriminate].
    injection Hcall as <-. eexists _, _. repeat split; reflexivity.
  - destruct (String.eqb (lower wd) "headwind") eqn:Hhead.
    + destruct (PyFloat.truediv 180 factor) as [step_2|e]; cbn [bind] in Hcall;
        [|discriminate].
      destruct (PyFloat.truediv (distance * wind) step_2) as [step_3|e];
        cbn [bind] in Hcall; [|discriminate].
      injection Hcall as <-. eexists _, _. repeat split; reflexivity.
    + injection Hcall as <-. discriminate Herr.
Qed.

(** [step_4_matches_adjusted_distance] on the worked example. *)
Lemma step_4_matches_adjusted_distance_witness :
  exists res adjusted step_4,
    calculate_steps no_render no_render 103 15 0 "headwind" = Ok res /\
    dict_has res "error" = false /\
    dict_get res "adjusted_distance" = Some (PFloat adjusted) /\
    dict_get res "step_4" = Some (PDict step_4) /\
    dict_get step_4 "result" = Some (PFloat adjusted).
Proof.
  assert (Hrun : exists res,
             calculate_steps no_render no_render 103 15 0 "headwind" = Ok res /\
             dict_has res "error" = false)
    by (eexists; split; vm_compute; reflexivity).
  destruct Hrun as (res & Hcall & Herr).
  destruct (step_4_matches_adjusted_distance _ _ _ _ _ _ _ Hcall Herr)
    as (adjusted & step_4 & H1 & H2 & H3).
  exists res, adjusted, step_4. repeat split; assumption.
Defined.

(** * Further properties of the code *)

(** ** Order and finiteness of doubles *)

Lemma fin_any_is_finite x : fin_any x = true -> is_finite x = true.
Proof.
  unfold fin_any, is_finite, is_nan, is_infinity.
  rewrite !FloatAxioms.eqb_spec, FloatAxioms.abs_spec. spec_of infinity.
  destruct (Prim2SF x) as [s|s| |s m e]; try discriminate; intros _.
  - destruct s; reflexivity.
  - rewrite SFeqb_refl_finite. reflexivity.
Qed.

Lemma fin_nonneg_is_finite x : fin_nonneg x = true -> is_finite x = true.
Proof. intros H. apply fin_any_is_finite, fin_nonneg_any, H. Qed.

(** A double between zero and a finite double is zero or positive and
    finite. *)
Lemma between_fin_nonneg x c :
  (0 <=? x)%float = true -> (x <=? c)%float = true -> fin_nonneg c = true ->
  fin_nonneg x = true.
Proof.
  rewrite !FloatAxioms.leb_spec. spec_of 0%float. unfold fin_nonneg.
  destruct (Prim2SF x) as [s|[]| |[] m e]; try discriminate; try reflexivity.
  destruct (Prim2SF c) as [?|?| |[] ? ?]; discriminate.
Qed.

Lemma nonneg_from_leb x :
  (0 <=? x)%float = true -> is_finite x = true -> fin_nonneg x = true.
Proof.
  rewrite FloatAxioms.leb_spec. spec_of 0%float. intros H Hf.
  apply is_finite_spec in Hf. unfold fin_nonneg.
  destruct (Prim2SF x) as [s|[]| |[] m e]; try discriminate; try reflexivity;
    contradiction.
Qed.

(** Two roundings of ordered reals are ordered, as reals too. *)
Lemma rounds0_val_le r1 r2 z1 z2 :
  rounds0 r1 (Prim2SF z1) -> rounds0 r2 (Prim2SF z2) -> r1 <= r2 ->
  fin_nonneg z1 = true -> fin_nonneg z2 = true ->
  val z1 <= val z2.
Proof.
  intros H1 H2 Hle Hn1 Hn2.
  apply leb_val; try assumption. rewrite FloatAxioms.leb_spec.
  eapply rounds0_mono; eassumption.
Qed.

Lemma slope_mono d1 d2 :
  in_range 0 90 d1 -> in_range 0 90 d2 -> val d1 <= val d2 ->
  val ((d1 / 90) * (1 - 0.1))%float <= val ((d2 / 90) * (1 - 0.1))%float.
Proof.
  intros H1 H2 Hle.
  pose proof (slope_range d1 H1) as (Hp1 & _).
  pose proof (slope_range d2 H2) as (Hp2 & _).
  destruct H1 as (Hn1 & Hlo1 & Hhi1), H2 as (Hn2 & Hlo2 & Hhi2).
  rewrite val_0, val_90 in *.
  assert (in_range 0 1 (d1 / 90)%float) as (Hq1 & _).
  { apply (in_range_intro (val d1 / val 90) _ _ (val 0%float) _ (val 1%float));
      try reflexivity; try (apply self_rounds0; reflexivity).
    - apply div_rounds0; [assumption|reflexivity].
    - rewrite val_0, val_1, val_90. lra. }
  assert (in_range 0 1 (d2 / 90)%float) as (Hq2 & _).
  { apply (in_range_intro (val d2 / val 90) _ _ (val 0%float) _ (val 1%float));
      try reflexivity; try (apply self_rounds0; reflexivity).
    - apply div_rounds0; [assumption|reflexivity].
    - rewrite val_0, val_1, val_90. lra. }
  assert (val (d1 / 90)%float <= val (d2 / 90)%float) as Hq.
  { apply (rounds0_val_le (val d1 / val 90) (val d2 / val 90)); try assumption.
    - apply div_rounds0; [assumption|reflexivity].
    - apply div_rounds0; [assumption|reflexivity].
    - rewrite val_90. lra. }
  apply (rounds0_val_le (val (d1 / 90)%float * val (1 - 0.1)%float)
           (val (d2 / 90)%float * val (1 - 0.1)%float)); try assumption.
  - apply mul_rounds0; [assumption|reflexivity].
  - apply mul_rounds0; [assumption|reflexivity].
  - rewrite val_0_9. nra.
Qed.

Lemma falling_mono p1 p2 :
  in_range 0 (1 - 0.1) p1 -> in_range 0 (1 - 0.1) p2 -> val p1 <= val p2 ->
  val (1 - p2)%float <= val (1 - p1)%float.
Proof.
  intros H1 H2 Hle.
  pose proof (falling_range p1 H1) as (Hf1 & _).
  pose proof (falling_range p2 H2) as (Hf2 & _).
  destruct H1 as (Hn1 & Hlo1 & Hhi1), H2 as (Hn2 & Hlo2 & Hhi2).
  rewrite val_0, val_0_9 in *.
  apply (rounds0_val_le (val 1%float - val p2) (val 1%float - val p1));
    try assumption.
  - apply sub_rounds0; [reflexivity|apply fin_nonneg_any; assumption|].
    rewrite val_1. lra.
  - apply sub_rounds0; [reflexivity|apply fin_nonneg_any; assumption|].
    rewrite val_1. lra.
  - lra.
Qed.

Lemma rising_mono p1 p2 :
  in_range 0 (1 - 0.1) p1 -> in_range 0 (1 - 0.1) p2 -> val p1 <= val p2 ->
  val (0.1 + p1)%float <= val (0.1 + p2)%float.
Proof.
  intros H1 H2 Hle.
  pose proof (rising_range p1 H1) as (Hf1 & _).
  pose proof (rising_range p2 H2) as (Hf2 & _).
  destruct H1 as (Hn1 & Hlo1 & Hhi1), H2 as (Hn2 & Hlo2 & Hhi2).
  rewrite val_0, val_0_9 in *.
  apply (rounds0_val_le (val 0.1%float + val p1) (val 0.1%float + val p2));
    try assumption.
  - apply add_rounds0; [reflexivity|apply fin_nonneg_any; assumption|].
    rewrite val_0_1. lra.
  - apply add_rounds0; [reflexivity|apply fin_nonneg_any; assumption|].
    rewrite val_0_1. lra.
  - lra.
Qed.

Lemma offset_mono n1 n2 c :
  fin_nonneg n1 = true -> fin_nonneg n2 = true -> fin_nonneg c = true ->
  val c <= val n1 -> val n1 <= val n2 -> val n2 <= val c + 90 ->
  val (n1 - c)%float <= val (n2 - c)%float.
Proof.
  intros Hn1 Hn2 Hc Hlo Hle Hhi.
  pose proof (offset_range n1 c Hn1 Hc ltac:(lra)) as (Ho1 & _).
  pose proof (offset_range n2 c Hn2 Hc ltac:(lra)) as (Ho2 & _).
  apply (rounds0_val_le (val n1 - val c) (val n2 - val c)); try assumption.
  - apply sub_rounds0; try (apply fin_nonneg_any; assumption). lra.
  - apply sub_rounds0; try (apply fin_nonneg_any; assumption). lra.
  - lra.
Qed.

Lemma fin_nonneg_ext x : fin_nonneg x = true -> ext_nonneg x = true.
Proof.
  unfold fin_nonneg, ext_nonneg.
  destruct (Prim2SF x) as [?|?| |[] ? ?]; try discriminate; reflexivity.
Qed.

Lemma leb_ext lo a :
  ext_nonneg lo = true -> (lo <=? a)%float = true -> ext_nonneg a = true.
Proof.
  rewrite FloatAxioms.leb_spec. unfold ext_nonneg.
  destruct (Prim2SF lo) as [?|[]| |[] ? ?]; try discriminate;
    destruct (Prim2SF a) as [?|[]| |[] ? ?]; try discriminate; reflexivity.
Qed.

Lemma ltb_ext lo a :
  ext_nonneg lo = true -> (lo <? a)%float = true -> ext_nonneg a = true.
Proof.
  rewrite FloatAxioms.ltb_spec. unfold ext_nonneg.
  destruct (Prim2SF lo) as [?|[]| |[] ? ?]; try discriminate;
    destruct (Prim2SF a) as [?|[]| |[] ? ?]; try discriminate; reflexivity.
Qed.

Lemma ext_leb_fin a hi :
  ext_nonneg a = true -> (a <=? hi)%float = true -> fin_nonneg hi = true ->
  fin_nonneg a = true.
Proof.
  rewrite FloatAxioms.leb_spec. unfold ext_nonneg, fin_nonneg.
  destruct (Prim2SF a) as [?|[]| |[] ? ?]; try discriminate; try reflexivity.
  destruct (Prim2SF hi) as [?|[]| |[] ? ?]; discriminate.
Qed.

Lemma ext_ltb_fin a hi :
  ext_nonneg a = true -> (a <? hi)%float = true -> fin_nonneg hi = true ->
  fin_nonneg a = true.
Proof.
  rewrite FloatAxioms.ltb_spec. unfold ext_nonneg, fin_nonneg.
  destruct (Prim2SF a) as [?|[]| |[] ? ?]; try discriminate; try reflexivity.
  destruct (Prim2SF hi) as [?|[]| |[] ? ?]; discriminate.
Qed.

(** Below 360 the remainder is the angle itself. *)
Lemma rem_360_small x :
  fin_nonneg x = true -> val x < 360 ->
  exists n, PyFloat.rem x 360 = Ok n /\ fin_nonneg n = true /\ val n = val x.
Proof.
  intros Hx Hlt.
  pose proof (val_pos_fin_pos x Hx) as _.
  assert (0 <= val x) as H0 by (apply B2R_nonneg; exact Hx).
  destruct (rem_360_spec x (fin_nonneg_is_finite x Hx))
    as (n & q & rho & Hrem & Hsplit & Hrho & Hr).
  assert (rho = val x) as ->.
  { apply (remainder_unique q rho 0 (val x)); [lra|assumption|lra]. }
  assert (in_range 0 360 n) as (Hn & _).
  { apply (in_range_intro (val x) _ _ (val 0%float) _ (val 360%float));
      try reflexivity; try (apply self_rounds0; reflexivity).
    - left. assumption.
    - rewrite val_0, val_360. lra. }
  exists n. split; [assumption|]. split; [assumption|].
  apply Rle_antisym.
  - apply (rounds0_val_le (val x) (val x)); try assumption;
      [left; assumption|apply self_rounds0; assumption|lra].
  - apply (rounds0_val_le (val x) (val x)); try assumption;
      [apply self_rounds0; assumption|left; assumption|lra].
Qed.

(** Which formula the normalised angle selects. *)
Lemma pick_quadrant n :
  fin_nonneg n = true ->
  let chosen :=
    if ((0 <=? n) && (n <=? 90))%float then quadrant_1 n
    else if ((90 <? n) && (n <=? 180))%float then quadrant_2 n
    else if ((180 <? n) && (n <=? 270))%float then quadrant_3 n
    else quadrant_4 n in
  (val n <= 90 -> chosen = quadrant_1 n) /\
  (90 < val n <= 180 -> chosen = quadrant_2 n) /\
  (180 < val n <= 270 -> chosen = quadrant_3 n) /\
  (270 < val n -> chosen = quadrant_4 n).
Proof.
  intros Hn chosen. subst chosen.
  assert ((0 <=? n)%float = true) as ->
      by (apply leb_val; [reflexivity|assumption|];
          rewrite val_0; apply B2R_nonneg; exact Hn).
  pose proof (leb_val n 90 Hn eq_refl) as L90.
  pose proof (leb_val n 180 Hn eq_refl) as L180.
  pose proof (leb_val n 270 Hn eq_refl) as L270.
  pose proof (ltb_val 90 n eq_refl Hn) as G90.
  pose proof (ltb_val 180 n eq_refl Hn) as G180.
  rewrite val_90 in *. rewrite val_180 in *. rewrite val_270 in *.
  cbn [andb].
  destruct (n <=? 90)%float, (90 <? n)%float, (n <=? 180)%float,
    (180 <? n)%float, (n <=? 270)%float; cbn [andb];
    repeat split; intros; try reflexivity; exfalso;
    repeat match goal with
      | H : _ <-> _ |- _ => destruct H
      end;
    try (assert (true = true) as Ht by reflexivity);
    repeat match goal with
      | H : true = true -> _ |- _ => specialize (H eq_refl)
      | H : ?P -> false = true |- _ =>
          assert (~ P) by (intros HP; specialize (H HP); discriminate); clear H
      end; lra.
Qed.

(** ** The shape of the angle factor *)

Lemma falling_leb d1 d2 :
  in_range 0 90 d1 -> in_range 0 90 d2 -> val d1 <= val d2 ->
  ((1 - (d2 / 90) * (1 - 0.1)) <=? (1 - (d1 / 90) * (1 - 0.1)))%float = true.
Proof.
  intros H1 H2 Hle.
  pose proof (slope_range d1 H1) as Hp1. pose proof (slope_range d2 H2) as Hp2.
  pose proof (falling_range _ Hp1) as (Hf1 & _).
  pose proof (falling_range _ Hp2) as (Hf2 & _).
  apply leb_val; try assumption.
  apply falling_mono; try assumption. apply slope_mono; assumption.
Qed.

Lemma rising_leb d1 d2 :
  in_range 0 90 d1 -> in_range 0 90 d2 -> val d1 <= val d2 ->
  ((0.1 + (d1 / 90) * (1 - 0.1)) <=? (0.1 + (d2 / 90) * (1 - 0.1)))%float = true.
Proof.
  intros H1 H2 Hle.
  pose proof (slope_range d1 H1) as Hp1. pose proof (slope_range d2 H2) as Hp2.
  pose proof (rising_range _ Hp1) as (Hf1 & _).
  pose proof (rising_range _ Hp2) as (Hf2 & _).
  apply leb_val; try assumption.
  apply rising_mono; try assumption. apply slope_mono; assumption.
Qed.

Lemma first_range n : fin_nonneg n = true -> val n <= 90 -> in_range 0 90 n.
Proof.
  intros Hn Hb. split; [assumption|]. rewrite val_0, val_90.
  split; [apply B2R_nonneg; exact Hn|assumption].
Qed.

(** An angle below 360 is its own normalised angle, up to the sign of zero,
    so the factor is the quadrant's formula at a double of the same value. *)
Lemma calculate_angle_factor_small a :
  fin_nonneg a = true -> val a < 360 ->
  exists n, fin_nonneg n = true /\ val n = val a /\
    (val a <= 90 -> calculate_angle_factor a = quadrant_1 n) /\
    (90 < val a <= 180 -> calculate_angle_factor a = quadrant_2 n) /\
    (180 < val a <= 270 -> calculate_angle_factor a = quadrant_3 n) /\
    (270 < val a -> calculate_angle_factor a = quadrant_4 n).
Proof.
  intros Ha Hlt. destruct (rem_360_small a Ha Hlt) as (n & Hrem & Hn & Hv).
  exists n. split; [assumption|]. split; [assumption|].
  unfold calculate_angle_factor. rewrite Hrem. cbn [bind]. rewrite <- Hv.
  exact (pick_quadrant n Hn).
Qed.

(** The comparisons of two angles inside one quadrant, read on the reals. *)
Lemma ordered_pair lo a b hi :
  fin_nonneg lo = true -> fin_nonneg hi = true ->
  ((lo <=? a)%float = true \/ (lo <? a)%float = true) ->
  (a <=? b)%float = true ->
  ((b <=? hi)%float = true \/ (b <? hi)%float = true) ->
  fin_nonneg a = true /\ fin_nonneg b = true /\ val a <= val b.
Proof.
  intros Hlo Hhi Hla Hab Hbh.
  assert (ext_nonneg a = true) as Ea.
  { destruct Hla; [eapply leb_ext|eapply ltb_ext]; try eassumption;
      apply fin_nonneg_ext; assumption. }
  assert (ext_nonneg b = true) as Eb by (eapply leb_ext; eassumption).
  assert (fin_nonneg b = true) as Hb.
  { destruct Hbh; [eapply ext_leb_fin|eapply ext_ltb_fin]; eassumption. }
  assert (fin_nonneg a = true) as Ha by (eapply ext_leb_fin; eassumption).
  repeat split; try assumption. apply leb_val; assumption.
Qed.

(** X2: on the first and on the third quadrant the factor does not grow
    with the angle. *)
Theorem angle_factor_falls (a b : float) :
  ((0 <=? a) && (a <=? b) && (b <=? 90) = true \/
   (180 <? a) && (a <=? b) && (b <=? 270) = true)%float ->
  exists fa fb,
    calculate_angle_factor a = Ok fa /\ calculate_angle_factor b = Ok fb /\
    (fb <=? fa)%float = true.
Proof.
  intros [H|H]; apply andb_prop in H; destruct H as (H & Hbh);
    apply andb_prop in H; destruct H as (Hla & Hab).
  - destruct (ordered_pair 0 a b 90 eq_refl eq_refl (or_introl Hla) Hab
                (or_introl Hbh)) as (Ha & Hb & Hle).
    apply leb_val in Hbh; try assumption; try reflexivity. rewrite val_90 in Hbh.
    assert (val a < 360) as Sa by lra.
    destruct (calculate_angle_factor_small a Ha Sa)
      as (na & Hna & Hva & Q1a & Q2a & Q3a & Q4a).
    rewrite (Q1a ltac:(lra)).
    assert (val b < 360) as Sb by lra.
    destruct (calculate_angle_factor_small b Hb Sb)
      as (nb & Hnb & Hvb & Q1b & Q2b & Q3b & Q4b).
    rewrite (Q1b ltac:(lra)).
    do 2 eexists. split; [reflexivity|]. split; [reflexivity|].
    apply falling_leb; try (apply first_range; try assumption; lra). lra.
  - destruct (ordered_pair 180 a b 270 eq_refl eq_refl (or_intror Hla) Hab
                (or_introl Hbh)) as (Ha & Hb & Hle).
    apply leb_val in Hbh; try assumption; try reflexivity. rewrite val_270 in Hbh.
    apply ltb_val in Hla; try assumption; try reflexivity. rewrite val_180 in Hla.
    assert (val a < 360) as Sa by lra.
    destruct (calculate_angle_factor_small a Ha Sa)
      as (na & Hna & Hva & Q1a & Q2a & Q3a & Q4a).
    rewrite (Q3a ltac:(lra)).
    assert (val b < 360) as Sb by lra.
    destruct (calculate_angle_factor_small b Hb Sb)
      as (nb & Hnb & Hvb & Q1b & Q2b & Q3b & Q4b).
    rewrite (Q3b ltac:(lra)).
    do 2 eexists. split; [reflexivity|]. split; [reflexivity|].
    apply falling_leb.
    + apply (offset_range na 180); [assumption|reflexivity|]. rewrite val_180. lra.
    + apply (offset_range nb 180); [assumption|reflexivity|]. rewrite val_180. lra.
    + apply offset_mono; try assumption; try reflexivity; rewrite ?val_180; lra.
Qed.

(** [angle_factor_falls] on a concrete input. *)
Lemma angle_factor_falls_witness :
  exists fa fb,
    calculate_angle_factor 200 = Ok fa /\ calculate_angle_factor 250.5 = Ok fb /\
    (fb <=? fa)%float = true.
Proof. exact (angle_factor_falls 200 250.5 (or_intror eq_refl)). Defined.

(** X3: on the second and on the fourth quadrant the factor does not fall
    as the angle grows. *)
Theorem angle_factor_rises (a b : float) :
  ((90 <? a) && (a <=? b) && (b <=? 180) = true \/
   (270 <? a) && (a <=? b) && (b <? 360) = true)%float ->
  exists fa fb,
    calculate_angle_factor a = Ok fa /\ calculate_angle_factor b = Ok fb /\
    (fa <=? fb)%float = true.
Proof.
  intros [H|H]; apply andb_prop in H; destruct H as (H & Hbh);
    apply andb_prop in H; destruct H as (Hla & Hab).
  - destruct (ordered_pair 90 a b 180 eq_refl eq_refl (or_intror Hla) Hab
                (or_introl Hbh)) as (Ha & Hb & Hle).
    apply leb_val in Hbh; try assumption; try reflexivity. rewrite val_180 in Hbh.
    apply ltb_val in Hla; try assumption; try reflexivity. rewrite val_90 in Hla.
    assert (val a < 360) as Sa by lra.
    destruct (calculate_angle_factor_small a Ha Sa)
      as (na & Hna & Hva & Q1a & Q2a & Q3a & Q4a).
    rewrite (Q2a ltac:(lra)).
    assert (val b < 360) as Sb by lra.
    destruct (calculate_angle_factor_small b Hb Sb)
      as (nb & Hnb & Hvb & Q1b & Q2b & Q3b & Q4b).
    rewrite (Q2b ltac:(lra)).
    do 2 eexists. split; [reflexivity|]. split; [reflexivity|].
    apply rising_leb.
    + apply (offset_range na 90); [assumption|reflexivity|]. rewrite val_90. lra.
    + apply (offset_range nb 90); [assumption|reflexivity|]. rewrite val_90. lra.
    + apply offset_mono; try assumption; try reflexivity; rewrite ?val_90; lra.
  - destruct (ordered_pair 270 a b 360 eq_refl eq_refl (or_intror Hla) Hab
                (or_intror Hbh)) as (Ha & Hb & Hle).
    apply ltb_val in Hbh; try assumption; try reflexivity. rewrite val_360 in Hbh.
    apply ltb_val in Hla; try assumption; try reflexivity. rewrite val_270 in Hla.
    assert (val a < 360) as Sa by lra.
    destruct (calculate_angle_factor_small a Ha Sa)
      as (na & Hna & Hva & Q1a & Q2a & Q3a & Q4a).
    rewrite (Q4a ltac:(lra)).
    assert (val b < 360) as Sb by lra.
    destruct (calculate_angle_factor_small b Hb Sb)
      as (nb & Hnb & Hvb & Q1b & Q2b & Q3b & Q4b).
    rewrite (Q4b ltac:(lra)).
    do 2 eexists. split; [reflexivity|]. split; [reflexivity|].
    apply rising_leb.
    + apply (offset_range na 270); [assumption|reflexivity|]. rewrite val_270. lra.
    + apply (offset_range nb 270); [assumption|reflexivity|]. rewrite val_270. lra.
    + apply offset_mono; try assumption; try reflexivity; rewrite ?val_270; lra.
Qed.

(** [angle_factor_rises] on a concrete input. *)
Lemma angle_factor_rises_witness :
  exists fa fb,
    calculate_angle_factor 100 = Ok fa /\ calculate_angle_factor 135.25 = Ok fb /\
    (fa <=? fb)%float = true.
Proof. exact (angle_factor_rises 100 135.25 (or_introl eq_refl)). Defined.

(** ** Not-a-number operands *)

Lemma Prim2SF_nan : Prim2SF nan = S754_nan.
Proof. reflexivity. Qed.

Lemma is_nan_eq x : Prim2SF x = S754_nan -> x = nan.
Proof. intros H. apply Prim2SF_inj. rewrite H. reflexivity. Qed.

Lemma div_nan_r x : (x / nan)%float = nan.
Proof.
  apply is_nan_eq. rewrite FloatAxioms.div_spec, Prim2SF_nan.
  unfold SF64div. destruct (Prim2SF x) as [?|?| |? ? ?]; reflexivity.
Qed.

Lemma add_nan_r x : (x + nan)%float = nan.
Proof.
  apply is_nan_eq. rewrite FloatAxioms.add_spec, Prim2SF_nan.
  unfold SF64add. destruct (Prim2SF x) as [?|?| |? ? ?]; reflexivity.
Qed.

Lemma sub_nan_r x : (x - nan)%float = nan.
Proof.
  apply is_nan_eq. rewrite FloatAxioms.sub_spec, Prim2SF_nan.
  unfold SF64sub. destruct (Prim2SF x) as [?|?| |? ? ?]; reflexivity.
Qed.

Lemma calculate_angle_factor_not_finite angle :
  is_finite angle = false -> calculate_angle_factor angle = Ok nan.
Proof.
  intros H. destruct (not_finite_cases angle H) as [->|[->| ->]]; reflexivity.
Qed.

(** The run of [calculate_steps] once the factor is not a number. *)
Lemma calculate_steps_nan float_str float_4f distance wind angle wd :
  calculate_angle_factor angle = Ok nan ->
  eq_nocase wd "headwind" = true \/ eq_nocase wd "tailwind" = true ->
  exists res,
    calculate_steps float_str float_4f distance wind angle wd = Ok res /\
    dict_keys res = trace_keys /\
    dict_has res "error" = false /\
    dict_field res "step_2" "result" = Some (PFloat nan) /\
    dict_field res "step_3" "result" = Some (PFloat nan) /\
    dict_get res "adjusted_distance" = Some (PFloat nan).
Proof.
  intros Hcaf Hdir. unfold calculate_steps. rewrite Hcaf. cbn [bind].
  rewrite lower_tailwind, lower_headwind.
  destruct Hdir as [Hh|Ht].
  - rewrite (head_not_tail _ Hh), Hh. cbv zeta.
    change (PyFloat.truediv 180 nan) with (@Ok float nan). cbn [bind].
    unfold PyFloat.truediv. change (nan =? 0)%float with false. cbv iota.
    cbn [bind]. rewrite div_nan_r, add_nan_r.
    eexists. split; [reflexivity|]. repeat split; reflexivity.
  - rewrite Ht. cbv zeta.
    change (PyFloat.truediv 225 nan) with (@Ok float nan). cbn [bind].
    unfold PyFloat.truediv. change (nan =? 0)%float with false. cbv iota.
    cbn [bind]. rewrite (tail_not_head _ Ht), div_nan_r, sub_nan_r.
    eexists. split; [reflexivity|]. repeat split; reflexivity.
Qed.

(** X5: an angle that is infinite or not a number raises nothing: its
    factor is not a number, and so are both quotients and the adjusted
    distance of a recognised direction. *)
Theorem non_finite_angle_gives_nan :
  forall float_str float_4f distance wind angle wind_direction,
    is_finite angle = false ->
    eq_nocase wind_direction "headwind" = true \/
    eq_nocase wind_direction "tailwind" = true ->
    calculate_angle_factor angle = Ok nan /\
    exists res,
      calculate_steps float_str float_4f distance wind angle wind_direction = Ok res /\
      dict_field res "step_2" "result" = Some (PFloat nan) /\
      dict_field res "step_3" "result" = Some (PFloat nan) /\
      dict_get res "adjusted_distance" = Some (PFloat nan).
Proof.
  intros float_str float_4f distance wind angle wd Hfin Hdir.
  pose proof (calculate_angle_factor_not_finite angle Hfin) as Hcaf.
  split; [exact Hcaf|].
  destruct (calculate_steps_nan float_str float_4f distance wind angle wd Hcaf Hdir)
    as (res & Hres & _ & _ & H2 & H3 & H4).
  exists res. repeat split; assumption.
Qed.

(** [non_finite_angle_gives_nan] on a concrete input. *)
Lemma non_finite_angle_gives_nan_witness :
  is_finite infinity = false /\ eq_nocase "headwind" "headwind" = true /\
  calculate_angle_factor infinity = Ok nan /\
  exists res,
    calculate_steps no_render no_render 103 15 infinity "headwind" = Ok res /\
    dict_field res "step_2" "result" = Some (PFloat nan) /\
    dict_field res "step_3" "result" = Some (PFloat nan) /\
    dict_get res "adjusted_distance" = Some (PFloat nan).
Proof.
  split; [reflexivity|]. split; [reflexivity|].
  exact (non_finite_angle_gives_nan no_render no_render 103 15 infinity "headwind"
           eq_refl (or_introl eq_refl)).
Defined.

(** X6: whatever the three doubles and the direction, [calculate_steps]
    returns a dictionary: either the six keys of the trace in the order of
    the steps, for a recognised direction, or the single key [error]. *)
Theorem calculate_steps_never_raises :
  forall float_str float_4f distance wind angle wind_direction,
    exists res,
      calculate_steps float_str float_4f distance wind angle wind_direction = Ok res /\
      dict_keys res =
        if eq_nocase wind_direction "headwind" || eq_nocase wind_direction "tailwind"
        then trace_keys else ["error"%string].
Proof.
  intros float_str float_4f distance wind angle wd.
  destruct (eq_nocase wd "headwind") eqn:Hh; cbn [orb];
    [|destruct (eq_nocase wd "tailwind") eqn:Ht].
  - destruct (is_finite angle) eqn:Hfin.
    + destruct (calculate_steps_run float_str float_4f distance wind angle wd
                  Hfin (or_introl Hh)) as (f & _ & _ & _ & Hrun).
      eexists. split; [exact Hrun|reflexivity].
    + destruct (calculate_steps_nan float_str float_4f distance wind angle wd
                  (calculate_angle_factor_not_finite angle Hfin) (or_introl Hh))
        as (res & Hres & Hk & _).
      exists res. split; assumption.
  - destruct (is_finite angle) eqn:Hfin.
    + destruct (calculate_steps_run float_str float_4f distance wind angle wd
                  Hfin (or_intror Ht)) as (f & _ & _ & _ & Hrun).
      eexists. split; [exact Hrun|reflexivity].
    + destruct (calculate_steps_nan float_str float_4f distance wind angle wd
                  (calculate_angle_factor_not_finite angle Hfin) (or_intror Ht))
        as (res & Hres & Hk & _).
      exists res. split; assumption.
  - destruct (calculate_angle_factor_total angle) as (f & Hf).
    unfold calculate_steps. rewrite Hf. cbn [bind].
    rewrite lower_tailwind, lower_headwind, Ht, Hh. eexists.
    split; reflexivity.
Qed.

(** X1: the normalised angle of a finite angle is a finite double from 0
    to 360, both ends included. *)
Theorem normalized_angle_range :
  forall angle,
    is_finite angle = true ->
    exists normalized_angle,
      PyFloat.rem angle 360 = Ok normalized_angle /\
      is_finite normalized_angle = true /\
      (0 <=? normalized_angle)%float = true /\
      (normalized_angle <=? 360)%float = true.
Proof.
  intros angle Hfin.
  destruct (rem_360_range angle Hfin) as (n & Hrem & Hn & Hlo & Hhi).
  exists n. split; [assumption|]. split; [apply fin_nonneg_is_finite; assumption|].
  split; apply leb_val; try assumption; reflexivity.
Qed.

(** [normalized_angle_range] on a concrete input. *)
Lemma normalized_angle_range_witness :
  is_finite (-1e-20) = true /\
  exists normalized_angle,
    PyFloat.rem (-1e-20) 360 = Ok normalized_angle /\
    is_finite normalized_angle = true /\
    (0 <=? normalized_angle)%float = true /\
    (normalized_angle <=? 360)%float = true.
Proof. split; [reflexivity|]. exact (normalized_angle_range (-1e-20) eq_refl). Defined.

(** X7: for a finite angle [step_2] lies between the divisor and ten times
    the divisor, the latter as binary64 divides it by the least factor:
    from 180 to 1800.0000000000005 against the wind and from 225 to
    2250.0000000000005 with it. *)
Theorem step_2_bounds :
  forall float_str float_4f distance wind angle wind_direction,
    is_finite angle = true ->
    eq_nocase wind_direction "headwind" = true \/
    eq_nocase wind_direction "tailwind" = true ->
    exists res step_2,
      calculate_steps float_str float_4f distance wind angle wind_direction = Ok res /\
      dict_field res "step_2" "result" = Some (PFloat step_2) /\
      is_finite step_2 = true /\
      if eq_nocase wind_direction "tailwind"
      then (225 <=? step_2)%float = true /\ (step_2 <=? 2250.0000000000005)%float = true
      else (180 <=? step_2)%float = true /\ (step_2 <=? 1800.0000000000005)%float = true.
Proof.
  intros float_str float_4f distance wind angle wd Hfin Hdir.
  destruct (calculate_steps_run float_str float_4f distance wind angle wd Hfin Hdir)
    as (f & _ & Hr & _ & Hrun).
  cbv zeta in Hrun. eexists. eexists. split; [exact Hrun|].
  split; [reflexivity|].
  destruct (eq_nocase wd "tailwind").
  - destruct (divisor_over_factor 225 f eq_refl eq_refl Hr)
      as (_ & (Hn & Hlo & Hhi) & _).
    split; [apply fin_nonneg_is_finite; assumption|].
    split; apply leb_val; try assumption; reflexivity.
  - destruct (divisor_over_factor 180 f eq_refl eq_refl Hr)
      as (_ & (Hn & Hlo & Hhi) & _).
    split; [apply fin_nonneg_is_finite; assumption|].
    split; apply leb_val; try assumption; reflexivity.
Qed.

(** [step_2_bounds] on a concrete input. *)
Lemma step_2_bounds_witness :
  is_finite 90 = true /\ eq_nocase "tailwind" "tailwind" = true /\
  exists res step_2,
    calculate_steps no_render no_render 103 15 90 "tailwind" = Ok res /\
    dict_field res "step_2" "result" = Some (PFloat step_2) /\
    is_finite step_2 = true /\
    (225 <=? step_2)%float = true /\ (step_2 <=? 2250.0000000000005)%float = true.
Proof.
  split; [reflexivity|]. split; [reflexivity|].
  exact (step_2_bounds no_render no_render 103 15 90 "tailwind" eq_refl
           (or_intror eq_refl)).
Defined.

(** ** Zero operands *)

Lemma eqb_zero w : (w =? 0)%float = true -> exists s, Prim2SF w = S754_zero s.
Proof.
  rewrite FloatAxioms.eqb_spec. spec_of 0%float.
  destruct (Prim2SF w) as [s|[]| |[] m e]; try discriminate. eauto.
Qed.

Lemma mul_zero_r d w :
  is_finite d = true -> (w =? 0)%float = true ->
  exists s, Prim2SF (d * w) = S754_zero s.
Proof.
  intros Hd Hw. apply is_finite_spec in Hd. destruct (eqb_zero w Hw) as (s & Hs).
  rewrite FloatAxioms.mul_spec, Hs. unfold SF64mul.
  destruct (Prim2SF d) as [?|?| |? ? ?]; try contradiction; cbn; eauto.
Qed.

Lemma div_zero_l x p s :
  Prim2SF x = S754_zero s -> fin_pos p = true ->
  exists s', Prim2SF (x / p) = S754_zero s'.
Proof.
  unfold fin_pos. intros Hx Hp. rewrite FloatAxioms.div_spec, Hx. unfold SF64div.
  destruct (Prim2SF p) as [?|?| |[] ? ?]; try discriminate; cbn; eauto.
Qed.

Lemma eqb_self_finite d : is_finite d = true -> (d =? d)%float = true.
Proof.
  intros Hd. apply is_finite_spec in Hd. rewrite FloatAxioms.eqb_spec.
  destruct (Prim2SF d) as [?|?| |? ? ?]; try contradiction;
    [reflexivity|apply SFeqb_refl_finite].
Qed.

Lemma add_zero_r d z s :
  is_finite d = true -> Prim2SF z = S754_zero s -> (d + z =? d)%float = true.
Proof.
  intros Hd Hz. pose proof (eqb_self_finite d Hd) as Hself.
  apply is_finite_spec in Hd.
  rewrite FloatAxioms.eqb_spec in *. rewrite FloatAxioms.add_spec, Hz.
  unfold SF64add.
  destruct (Prim2SF d) as [sd|?| |? ? ?]; try contradiction.
  - destruct sd, s; reflexivity.
  - exact Hself.
Qed.

Lemma sub_zero_r d z s :
  is_finite d = true -> Prim2SF z = S754_zero s -> (d - z =? d)%float = true.
Proof.
  intros Hd Hz. pose proof (eqb_self_finite d Hd) as Hself.
  apply is_finite_spec in Hd.
  rewrite FloatAxioms.eqb_spec in *. rewrite FloatAxioms.sub_spec, Hz.
  unfold SF64sub.
  destruct (Prim2SF d) as [sd|?| |? ? ?]; try contradiction.
  - destruct sd, s; reflexivity.
  - exact Hself.
Qed.

(** X8: without wind the distance is left as it is: for a finite distance,
    a wind of zero and a finite angle the adjusted distance compares equal
    to the distance, in either direction. *)
Theorem zero_wind_keeps_the_distance :
  forall float_str float_4f distance wind angle wind_direction,
    is_finite distance = true -> (wind =? 0)%float = true ->
    is_finite angle = true ->
    eq_nocase wind_direction "headwind" = true \/
    eq_nocase wind_direction "tailwind" = true ->
    exists res adjusted_distance,
      calculate_steps float_str float_4f distance wind angle wind_direction = Ok res /\
      dict_get res "adjusted_distance" = Some (PFloat adjusted_distance) /\
      dict_field res "step_4" "result" = Some (PFloat adjusted_distance) /\
      (adjusted_distance =? distance)%float = true.
Proof.
  intros float_str float_4f distance wind angle wd Hd Hw Hfin Hdir.
  destruct (calculate_steps_run float_str float_4f distance wind angle wd Hfin Hdir)
    as (f & _ & _ & Hp & Hrun).
  cbv zeta in Hrun, Hp. eexists. eexists. split; [exact Hrun|].
  split; [reflexivity|]. split; [reflexivity|].
  destruct (mul_zero_r distance wind Hd Hw) as (s1 & H1).
  destruct (div_zero_l _ _ _ H1 Hp) as (s3 & H3).
  destruct (eq_nocase wd "tailwind").
  - eapply sub_zero_r; eassumption.
  - eapply add_zero_r; eassumption.
Qed.

(** [zero_wind_keeps_the_distance] on a concrete input. *)
Lemma zero_wind_keeps_the_distance_witness :
  is_finite 103 = true /\ (0 =? 0)%float = true /\ is_finite 45 = true /\
  eq_nocase "tailwind" "tailwind" = true /\
  exists res adjusted_distance,
    calculate_steps no_render no_render 103 0 45 "tailwind" = Ok res /\
    dict_get res "adjusted_distance" = Some (PFloat adjusted_distance) /\
    dict_field res "step_4" "result" = Some (PFloat adjusted_distance) /\
    (adjusted_distance =? 103)%float = true.
Proof.
  repeat (split; [reflexivity|]).
  exact (zero_wind_keeps_the_distance no_render no_render 103 0 45 "tailwind"
           eq_refl eq_refl eq_refl (or_intror eq_refl)).
Defined.

(** ** The sign of the correction *)

Lemma rounds_ext x f : rounds0 x f -> nonneg_ext f = true.
Proof.
  intros H. destruct (rounds0_shape _ _ H) as [[s ->]|[->|(m & e & -> & _)]];
    reflexivity.
Qed.

Lemma mul_ext d w :
  fin_nonneg d = true -> fin_nonneg w = true -> ext_nonneg (d * w)%float = true.
Proof.
  intros Hd Hw. unfold ext_nonneg.
  destruct (fin_pos w) eqn:Hp.
  - eapply rounds_ext. apply mul_rounds0; assumption.
  - unfold fin_nonneg, fin_pos in *. rewrite FloatAxioms.mul_spec. unfold SF64mul.
    destruct (Prim2SF w) as [?|?| |[] ? ?]; try discriminate.
    destruct (Prim2SF d) as [?|?| |[] ? ?]; try discriminate; reflexivity.
Qed.

Lemma ext_cases x :
  ext_nonneg x = true -> fin_nonneg x = true \/ Prim2SF x = S754_infinity false.
Proof.
  unfold ext_nonneg, fin_nonneg.
  destruct (Prim2SF x) as [?|[]| |[] ? ?]; try discriminate; auto.
Qed.

Lemma div_ext x p :
  ext_nonneg x = true -> fin_pos p = true -> ext_nonneg (x / p)%float = true.
Proof.
  intros Hx Hp. destruct (ext_cases x Hx) as [Hn|Hinf].
  - eapply rounds_ext. apply div_rounds0; assumption.
  - unfold ext_nonneg, fin_pos in *. rewrite FloatAxioms.div_spec, Hinf.
    unfold SF64div.
    destruct (Prim2SF p) as [?|?| |[] ? ?]; try discriminate; reflexivity.
Qed.

(** Adding a correction that is zero, positive or infinite. *)
Lemma add_ext_leb d s :
  fin_nonneg d = true -> ext_nonneg s = true -> (d <=? d + s)%float = true.
Proof.
  intros Hd Hs. rewrite FloatAxioms.leb_spec.
  destruct (ext_cases s Hs) as [Hn|Hinf].
  - apply (rounds0_mono (val d) (val d + val s)).
    + apply self_rounds0. assumption.
    + apply add_rounds0; try (apply fin_nonneg_any; assumption).
      pose proof (B2R_nonneg _ Hd). pose proof (B2R_nonneg _ Hn).
      unfold val. lra.
    + pose proof (B2R_nonneg _ Hn). unfold val. lra.
  - unfold fin_nonneg in Hd. rewrite FloatAxioms.add_spec, Hinf. unfold SF64add.
    destruct (Prim2SF d) as [?|?| |[] ? ?]; try discriminate; reflexivity.
Qed.

(** The opposite of a rounding is below every nonnegative double. *)
Lemma opp_rounds_leb x f g :
  rounds x f -> nonneg_finite g = true -> SFleb (SFopp f) g = true.
Proof.
  intros Hf Hg.
  destruct (rounds_shape _ _ Hf) as [->|[->|(m & e & -> & _)]];
    destruct g as [?|?| |[] ? ?]; try discriminate; reflexivity.
Qed.

Lemma SFsub_below sx mx ex my ey :
  nonneg_finite (S754_finite sx mx ex) = true ->
  B2R (S754_finite sx mx ex) < B2R (S754_finite false my ey) ->
  SFleb (SFsub prec emax (S754_finite sx mx ex) (S754_finite false my ey))
        (S754_finite sx mx ex) = true.
Proof.
  intros Hx Hlt. cbn [SFsub].
  rewrite !B2R_finite in Hlt.
  rewrite <- (F2R_align sx mx ex (Z.min ex ey)) in Hlt by lia.
  rewrite <- (F2R_align false my ey (Z.min ex ey)) in Hlt by lia.
  apply F2R_lt_iff in Hlt.
  set (D := (_ - _)%Z) in *.
  assert (D < 0)%Z as HD by (subst D; lia). clearbody D.
  destruct D as [|p|p]; try lia.
  cbn [binary_normalize]. rewrite binary_round_opp.
  eapply opp_rounds_leb; [apply binary_round_rounds|assumption].
Qed.

(** Subtracting a correction that is zero, positive or infinite. *)
Lemma sub_ext_leb d s :
  fin_nonneg d = true -> ext_nonneg s = true -> (d - s <=? d)%float = true.
Proof.
  intros Hd Hs. rewrite FloatAxioms.leb_spec.
  destruct (ext_cases s Hs) as [Hn|Hinf].
  - destruct (Rle_or_lt (val s) (val d)) as [Hle|Hlt].
    + apply (rounds0_mono (val d - val s) (val d)).
      * apply sub_rounds0; try (apply fin_nonneg_any; assumption). lra.
      * apply self_rounds0. assumption.
      * pose proof (B2R_nonneg _ Hn). unfold val. lra.
    + unfold fin_nonneg, val in *. rewrite FloatAxioms.sub_spec. unfold SF64sub.
      destruct (Prim2SF s) as [?|?| |[] my ey]; try discriminate.
      * cbn [B2R] in Hlt. pose proof (B2R_nonneg _ Hd). lra.
      * destruct (Prim2SF d) as [sd|?| |[] mx ex]; try discriminate.
        -- destruct sd; reflexivity.
        -- apply SFsub_below; [reflexivity|assumption].
  - unfold fin_nonneg in Hd. rewrite FloatAxioms.sub_spec, Hinf. unfold SF64sub.
    destruct (Prim2SF d) as [[]|?| |[] ? ?]; try discriminate; reflexivity.
Qed.

(** X9: the wind moves the distance the right way: for a distance and a
    wind that are finite and not negative, and a finite angle, the adjusted
    distance is never below the distance against the wind and never above
    it with the wind. *)
Theorem wind_moves_the_distance_one_way :
  forall float_str float_4f distance wind angle wind_direction,
    is_finite distance = true -> (0 <=? distance)%float = true ->
    is_finite wind = true -> (0 <=? wind)%float = true ->
    is_finite angle = true ->
    eq_nocase wind_direction "headwind" = true \/
    eq_nocase wind_direction "tailwind" = true ->
    exists res adjusted_distance,
      calculate_steps float_str float_4f distance wind angle wind_direction = Ok res /\
      dict_get res "adjusted_distance" = Some (PFloat adjusted_distance) /\
      if eq_nocase wind_direction "tailwind"
      then (adjusted_distance <=? distance)%float = true
      else (distance <=? adjusted_distance)%float = true.
Proof.
  intros float_str float_4f distance wind angle wd Hfd Hd Hfw Hw Hfin Hdir.
  destruct (calculate_steps_run float_str float_4f distance wind angle wd Hfin Hdir)
    as (f & _ & _ & Hp & Hrun).
  cbv zeta in Hrun, Hp. eexists. eexists. split; [exact Hrun|].
  split; [reflexivity|].
  pose proof (nonneg_from_leb distance Hd Hfd) as Hnd.
  pose proof (nonneg_from_leb wind Hw Hfw) as Hnw.
  pose proof (div_ext _ _ (mul_ext _ _ Hnd Hnw) Hp) as H3.
  destruct (eq_nocase wd "tailwind").
  - apply sub_ext_leb; assumption.
  - apply add_ext_leb; assumption.
Qed.

(** [wind_moves_the_distance_one_way] on a concrete input. *)
Lemma wind_moves_the_distance_one_way_witness :
  is_finite 150 = true /\ (0 <=? 150)%float = true /\
  is_finite 12 = true /\ (0 <=? 12)%float = true /\ is_finite 45 = true /\
  eq_nocase "tailwind" "tailwind" = true /\
  exists res adjusted_distance,
    calculate_steps no_render no_render 150 12 45 "tailwind" = Ok res /\
    dict_get res "adjusted_distance" = Some (PFloat adjusted_distance) /\
    (adjusted_distance <=? 150)%float = true.
Proof.
  repeat (split; [reflexivity|]).
  exact (wind_moves_the_distance_one_way no_render no_render 150 12 45 "tailwind"
           eq_refl eq_refl eq_refl eq_refl eq_refl (or_intror eq_refl)).
Defined.

(** ** Exact differences *)

(** Two doubles of the same positive value are the same double. *)
Lemma val_inj_pos x y :
  fin_pos x = true -> fin_nonneg y = true -> val x = val y -> x = y.
Proof.
  intros Hx Hy Hv.
  assert (fin_pos y = true) as Hpy.
  { apply val_pos_fin_pos; [assumption|]. rewrite <- Hv. apply fin_pos_val, Hx. }
  pose proof (fin_pos_nonneg x Hx) as Hnx.
  assert ((x <=? y)%float = true) as H1 by (apply leb_val; try assumption; lra).
  assert ((y <=? x)%float = true) as H2 by (apply leb_val; try assumption; lra).
  rewrite FloatAxioms.leb_spec in H1, H2.
  apply Prim2SF_inj. unfold fin_pos in Hx, Hpy.
  destruct (Prim2SF x) as [?|?| |[] mx ex]; try discriminate.
  destruct (Prim2SF y) as [?|?| |[] my ey]; try discriminate.
  apply SFleb_antisym; assumption.
Qed.

Lemma rounds0_pos x f : rounds0 x f -> 0 < x -> rounds x f.
Proof. intros [H|[H _]] Hx; [assumption|lra]. Qed.

(** Taking a whole number of degrees off a larger double below [2^52] is
    exact: the difference lies on the grid of the double. *)
Lemma sub_whole_exact a c k :
  fin_pos a = true -> fin_pos c = true ->
  val c = IZR k -> val c < val a -> val a < p2 52 ->
  fin_pos (a - c)%float = true /\ val (a - c)%float = val a - val c.
Proof.
  intros Ha Hc Hk Hlt Hsmall.
  pose proof (fin_pos_val c Hc) as Hcpos.
  assert (rounds (val a - val c) (Prim2SF (a - c))) as Hr.
  { apply rounds0_pos; [|lra].
    apply sub_rounds0; try (apply fin_nonneg_any, fin_pos_nonneg; assumption). lra. }
  pose proof (Prim2SF_valid a) as Hva.
  unfold fin_pos, val in *.
  destruct (Prim2SF a) as [?|?| |[] m e] eqn:Hsa; try discriminate.
  apply valid_canon in Hva. destruct Hva as (HM & HE & Hnorm).
  assert (e < 0)%Z as He.
  { destruct (Z_lt_ge_dec e 0) as [|Hge]; [assumption|exfalso].
    specialize (Hnorm ltac:(lia)).
    assert (p2 52 <= B2R (S754_finite false m e)); [|lra].
    cbn [B2R cond_Zopp].
    pose proof (p2_le_F2R (Zpos m) e 52 ltac:(lia) Hnorm).
    pose proof (p2_le 52 (e + 52) ltac:(lia)). lra. }
  assert (B2R (S754_finite false m e) - B2R (Prim2SF c)
          = F2R (Zpos m - k * 2 ^ (- e)) e) as Hgrid.
  { rewrite F2R_minus. cbn [B2R cond_Zopp]. f_equal.
    rewrite Hk. replace e with (0 - - e)%Z at 2 by lia.
    rewrite F2R_shift by lia. unfold F2R, p2. cbn [powerRZ]. lra. }
  assert (0 < Zpos m - k * 2 ^ (- e) < 2 ^ 53)%Z as HMd.
  { split.
    - apply (F2R_lt_iff 0 _ e). rewrite <- Hgrid.
      unfold F2R at 1. rewrite Rmult_0_l. clear - Hlt. lra.
    - assert (0 < k)%Z by (apply lt_IZR; rewrite <- Hk; exact Hcpos).
      assert (0 < 2 ^ (- e))%Z by (apply Z.pow_pos_nonneg; lia). nia. }
  destruct (rounds_representable _ _ _ e Hr Hgrid HMd ltac:(lia)) as (HB & Hnf & _).
  - pose proof (p2_le 52 1024 ltac:(lia)). lra.
  - split; [|exact HB].
    destruct (Prim2SF (a - c)) as [?|?| |[] ? ?]; try discriminate.
    + exfalso. cbn [B2R] in HB, Hlt. lra.
    + reflexivity.
Qed.

Lemma deg_below_p2_52 x : x < 360 -> x < p2 52.
Proof.
  intros H. rewrite (p2_Z 52) by lia.
  assert (360 < IZR (2 ^ 52)) by (apply IZR_lt; lia). lra.
Qed.

(** A positive angle below 360 is its own normalised angle. *)
Lemma calculate_angle_factor_own a :
  fin_pos a = true -> val a < 360 ->
  (val a <= 90 -> calculate_angle_factor a = quadrant_1 a) /\
  (90 < val a <= 180 -> calculate_angle_factor a = quadrant_2 a) /\
  (180 < val a <= 270 -> calculate_angle_factor a = quadrant_3 a) /\
  (270 < val a -> calculate_angle_factor a = quadrant_4 a).
Proof.
  intros Ha Hlt.
  destruct (calculate_angle_factor_small a (fin_pos_nonneg a Ha) Hlt)
    as (n & Hn & Hv & HQ).
  assert (a = n) as <- by (apply val_inj_pos; [assumption|assumption|lra]).
  exact HQ.
Qed.

(** X4: half a turn changes nothing: for an angle above 180 and below 360
    the factor is the factor of the angle less 180, as binary64 subtracts. *)
Theorem half_turn_symmetry :
  forall angle,
    (180 <? angle)%float = true -> (angle <? 360)%float = true ->
    calculate_angle_factor angle = calculate_angle_factor (angle - 180).
Proof.
  intros a Hlo Hhi.
  assert (fin_nonneg a = true) as Hn.
  { eapply ext_ltb_fin; [eapply ltb_ext; [|exact Hlo]|exact Hhi|]; reflexivity. }
  apply ltb_val in Hlo; try assumption; try reflexivity.
  apply ltb_val in Hhi; try assumption; try reflexivity.
  rewrite val_180 in Hlo. rewrite val_360 in Hhi.
  assert (fin_pos a = true) as Ha by (apply val_pos_fin_pos; [assumption|lra]).
  destruct (sub_whole_exact a 180 180 Ha eq_refl val_180)
    as (Hb & Hvb); [rewrite val_180; lra|apply deg_below_p2_52; lra|].
  rewrite val_180 in Hvb.
  destruct (calculate_angle_factor_own a Ha Hhi) as (_ & _ & A3 & A4).
  destruct (calculate_angle_factor_own (a - 180) Hb ltac:(lra))
    as (B1 & B2 & _ & _).
  destruct (Rle_or_lt (val a) 270) as [Hle|Hgt].
  - rewrite A3 by lra. rewrite B1 by lra. reflexivity.
  - rewrite A4 by lra. rewrite B2 by lra.
    destruct (sub_whole_exact (a - 180) 90 90 Hb eq_refl val_90)
      as (Hc & Hvc); [rewrite val_90; lra|apply deg_below_p2_52; lra|].
    destruct (sub_whole_exact a 270 270 Ha eq_refl val_270)
      as (Hd & Hvd); [rewrite val_270; lra|apply deg_below_p2_52; lra|].
    rewrite val_90 in Hvc. rewrite val_270 in Hvd.
    assert ((a - 270)%float = (a - 180 - 90)%float) as Heq.
    { apply val_inj_pos; [assumption|apply fin_pos_nonneg; assumption|lra]. }
    unfold quadrant_4, quadrant_2. rewrite Heq. reflexivity.
Qed.

(** [half_turn_symmetry] on a concrete input. *)
Lemma half_turn_symmetry_witness :
  (180 <? 300.7)%float = true /\ (300.7 <? 360)%float = true /\
  calculate_angle_factor 300.7 = calculate_angle_factor (300.7 - 180).
Proof.
  split; [reflexivity|]. split; [reflexivity|].
  exact (half_turn_symmetry 300.7 eq_refl eq_refl).
Defined.

(** ** The correction of a wind up to 30 *)

Lemma val_30 : val 30%float = 30.
Proof. val_const 30%float. Qed.

Lemma val_32 : val 32%float = 32.
Proof. val_const 32%float. Qed.

Lemma val_225 : val 225%float = 225.
Proof. val_const 225%float. Qed.

Lemma val_p2_1000 : val 0x1p1000%float = p2 1000.
Proof.
  unfold val. spec_of 0x1p1000%float. cbn [B2R cond_Zopp]. unfold F2R.
  replace 1000%Z with (52 + 948)%Z by lia.
  rewrite p2_add, (p2_Z 52) by lia. reflexivity.
Qed.

(** Thirty-two times a double up to [2^1000] is a double. *)
Lemma scale_32 d :
  fin_nonneg d = true -> val d <= p2 1000 ->
  fin_nonneg (d * 32)%float = true /\ val (d * 32)%float = 32 * val d.
Proof.
  intros Hd Hle.
  pose proof (mul_rounds0 d 32 Hd eq_refl) as Hr. rewrite val_32 in Hr.
  pose proof (Prim2SF_valid d) as Hv.
  unfold fin_nonneg, val in *.
  destruct (Prim2SF d) as [s|?| |[] m e] eqn:Hs; try discriminate.
  - cbn [B2R] in *. destruct Hr as [Hr|[_ [s' Hz]]].
    + destruct (rounds_shape _ _ Hr) as [H|[H|(m & e & H & _)]].
      * rewrite H. cbn. split; [reflexivity|lra].
      * exfalso. rewrite FloatAxioms.mul_spec, Hs in H. discriminate H.
      * exfalso. rewrite FloatAxioms.mul_spec, Hs in H. discriminate H.
    + rewrite Hz. cbn. split; [reflexivity|lra].
  - apply valid_canon in Hv. destruct Hv as (HM & HE & _).
    pose proof (B2R_pos m e) as Hpos.
    assert (rounds (B2R (S754_finite false m e) * 32) (Prim2SF (d * 32))) as Hr'
        by (apply rounds0_pos; [assumption|lra]).
    assert (B2R (S754_finite false m e) * 32 = F2R (Zpos m) (e + 5)) as Hgrid.
    { cbn [B2R cond_Zopp]. unfold F2R. rewrite p2_add, (p2_Z 5) by lia.
      change (2 ^ 5)%Z with 32%Z. lra. }
    destruct (rounds_representable _ _ _ _ Hr' Hgrid HM ltac:(lia)) as (HB & Hnf & _).
    + assert (p2 1005 <= p2 1024) by (apply p2_le; lia).
      assert (p2 1005 = 32 * p2 1000).
      { replace 1005%Z with (1000 + 5)%Z by lia.
        rewrite p2_add, (p2_Z 5) by lia. change (2 ^ 5)%Z with 32%Z. lra. }
      pose proof (p2_pos 1000).
      assert (p2 1000 < p2 1005) by lra.
      assert (p2 1005 < p2 1024); [|lra].
      replace 1024%Z with (1005 + 19)%Z by lia.
      rewrite p2_add, (p2_Z 19) by lia.
      assert (1 < IZR (2 ^ 19)) by (apply IZR_lt; lia).
      pose proof (p2_pos 1005). nra.
    + split; [assumption|]. rewrite HB. lra.
Qed.

(** The correction of a wind up to 30 is at most the distance. *)
Lemma step_3_at_most_distance d w s2 :
  fin_nonneg d = true -> val d <= p2 1000 ->
  fin_nonneg w = true -> val w <= 30 ->
  fin_pos s2 = true -> 225 <= val s2 ->
  in_range 0 d (d * w / s2)%float.
Proof.
  intros Hd Hle Hw Hw30 Hs2 H225.
  destruct (scale_32 d Hd Hle) as (Hz & Hvz).
  pose proof (B2R_nonneg _ Hd) as Hd0. pose proof (B2R_nonneg _ Hw) as Hw0.
  fold (val d) in Hd0. fold (val w) in Hw0.
  assert (in_range 0 (d * 32) (d * w)%float) as (H1 & _ & H1hi).
  { destruct (fin_pos w) eqn:Hp.
    - apply (in_range_intro (val d * val w) _ _ (val 0%float) _ (val d * val 32%float)).
      + apply mul_rounds0; assumption.
      + apply self_rounds0. reflexivity.
      + apply mul_rounds0; [assumption|reflexivity].
      + reflexivity.
      + assumption.
      + rewrite val_0, val_32. nra.
    - assert (exists s, Prim2SF (d * w) = S754_zero s) as (s & Hs).
      { unfold fin_nonneg, fin_pos in *. rewrite FloatAxioms.mul_spec.
        unfold SF64mul.
        destruct (Prim2SF w) as [?|?| |[] ? ?]; try discriminate.
        destruct (Prim2SF d) as [?|?| |[] ? ?]; try discriminate; cbn; eauto. }
      unfold in_range, fin_nonneg, val. rewrite Hs. cbn [nonneg_finite B2R].
      split; [reflexivity|]. fold (val 0%float) (val (d * 32)%float).
      rewrite val_0, Hvz. lra. }
  rewrite Hvz in H1hi.
  pose proof (B2R_nonneg _ H1) as H10. fold (val (d * w)%float) in H10.
  apply (in_range_intro (val (d * w)%float / val s2) _ _ (val 0%float) _ (val d)).
  - apply div_rounds0; assumption.
  - apply self_rounds0. reflexivity.
  - apply self_rounds0. assumption.
  - reflexivity.
  - assumption.
  - rewrite val_0. split.
    + apply Rmult_le_pos; [assumption|]. left. apply Rinv_0_lt_compat. lra.
    + apply Rmult_le_reg_r with (val s2); [lra|].
      unfold Rdiv. rewrite Rmult_assoc, Rinv_l by lra. nra.
Qed.

(** X10: a wind within the limit of the form, from 0 to 30, never takes the
    distance below zero when it blows from behind: for a distance from 0 to
    1e300 and a finite angle, the adjusted distance lies between 0 and the
    distance.  (Past 1e300 the product [distance * wind] can overflow.) *)
Theorem tailwind_stays_nonnegative :
  forall float_str float_4f distance wind angle wind_direction,
    ((0 <=? distance) && (distance <=? 1e300) = true)%float ->
    ((0 <=? wind) && (wind <=? 30) = true)%float ->
    is_finite angle = true ->
    eq_nocase wind_direction "tailwind" = true ->
    exists res adjusted_distance,
      calculate_steps float_str float_4f distance wind angle wind_direction = Ok res /\
      dict_get res "adjusted_distance" = Some (PFloat adjusted_distance) /\
      (0 <=? adjusted_distance)%float = true /\
      (adjusted_distance <=? distance)%float = true.
Proof.
  intros float_str float_4f d w angle wd Hd Hw Hfin Ht.
  apply andb_prop in Hd. destruct Hd as (Hd0 & Hd1).
  apply andb_prop in Hw. destruct Hw as (Hw0 & Hw1).
  pose proof (between_fin_nonneg d 1e300 Hd0 Hd1 eq_refl) as Hnd.
  pose proof (between_fin_nonneg w 30 Hw0 Hw1 eq_refl) as Hnw.
  apply leb_val in Hd1; try assumption; try reflexivity.
  apply leb_val in Hw1; try assumption; try reflexivity.
  rewrite val_30 in Hw1.
  assert (val 1e300%float <= p2 1000) as Hbig.
  { rewrite <- val_p2_1000. apply leb_val; reflexivity. }
  destruct (calculate_steps_run float_str float_4f d w angle wd Hfin (or_intror Ht))
    as (f & _ & Hr & Hp & Hrun).
  rewrite Ht in Hrun, Hp. cbv zeta in Hrun, Hp.
  eexists. eexists. split; [exact Hrun|]. split; [reflexivity|].
  destruct (divisor_over_factor 225 f eq_refl eq_refl Hr) as (_ & (_ & Hlo & _) & _).
  rewrite val_225 in Hlo.
  destruct (step_3_at_most_distance d w (225 / f)%float Hnd ltac:(lra) Hnw Hw1 Hp Hlo)
    as (H3 & H3lo & H3hi).
  rewrite val_0 in H3lo.
  assert (in_range 0 d (d - d * w / (225 / f))%float) as (Ha & Halo & Hahi).
  { apply (in_range_intro (val d - val (d * w / (225 / f))%float) _ _
             (val 0%float) _ (val d)).
    - apply sub_rounds0; try (apply fin_nonneg_any; assumption). lra.
    - apply self_rounds0. reflexivity.
    - apply self_rounds0. assumption.
    - reflexivity.
    - assumption.
    - rewrite val_0. lra. }
  split; apply leb_val; try assumption; reflexivity.
Qed.

(** [tailwind_stays_nonnegative] on a concrete input. *)
Lemma tailwind_stays_nonnegative_witness :
  ((0 <=? 103) && (103 <=? 1e300) = true)%float /\
  ((0 <=? 30) && (30 <=? 30) = true)%float /\
  is_finite 90 = true /\ eq_nocase "tailwind" "tailwind" = true /\
  exists res adjusted_distance,
    calculate_steps no_render no_render 103 30 90 "tailwind" = Ok res /\
    dict_get res "adjusted_distance" = Some (PFloat adjusted_distance) /\
    (0 <=? adjusted_distance)%float = true /\
    (adjusted_distance <=? 103)%float = true.
Proof.
  repeat (split; [reflexivity|]).
  exact (tailwind_stays_nonnegative no_render no_render 103 30 90 "tailwind"
           eq_refl eq_refl eq_refl eq_refl).
Defined.

(** ** Directions of another length *)





(** ** Comparing corrections *)

Lemma ext_leb_inf x :
  ext_nonneg x = true -> SFleb (Prim2SF x) (S754_infinity false) = true.
Proof.
  unfold ext_nonneg. destruct (Prim2SF x) as [?|[]| |[] ? ?]; try discriminate;
    reflexivity.
Qed.

Lemma div_inf_l x p :
  Prim2SF x = S754_infinity false -> fin_pos p = true ->
  Prim2SF (x / p) = S754_infinity false.
Proof.
  intros Hx Hp. unfold fin_pos in Hp. rewrite FloatAxioms.div_spec, Hx.
  unfold SF64div. destruct (Prim2SF p) as [?|?| |[] ? ?]; try discriminate.
  reflexivity.
Qed.

Lemma leb_fin_of_ext x y :
  ext_nonneg x = true -> fin_nonneg y = true -> (x <=? y)%float = true ->
  fin_nonneg x = true.
Proof. intros Hx Hy H. eapply ext_leb_fin; eassumption. Qed.

(** Dividing by the same positive double keeps the order. *)
Lemma div_mono_l x y p :
  ext_nonneg x = true -> ext_nonneg y = true -> (x <=? y)%float = true ->
  fin_pos p = true -> (x / p <=? y / p)%float = true.
Proof.
  intros Hx Hy Hle Hp. rewrite FloatAxioms.leb_spec.
  destruct (ext_cases y Hy) as [Hny|Hinf].
  - pose proof (leb_fin_of_ext x y Hx Hny Hle) as Hnx.
    apply leb_val in Hle; try assumption.
    apply (rounds0_mono (val x / val p) (val y / val p)).
    + apply div_rounds0; assumption.
    + apply div_rounds0; assumption.
    + pose proof (fin_pos_val p Hp). unfold Rdiv.
      apply Rmult_le_compat_r; [left; apply Rinv_0_lt_compat; lra|assumption].
  - rewrite (div_inf_l y p Hinf Hp). apply ext_leb_inf, div_ext; assumption.
Qed.

(** Dividing by a larger positive double gives no more. *)
Lemma div_mono_r x p q :
  ext_nonneg x = true -> fin_pos p = true -> fin_pos q = true ->
  val p <= val q -> (x / q <=? x / p)%float = true.
Proof.
  intros Hx Hp Hq Hle. rewrite FloatAxioms.leb_spec.
  destruct (ext_cases x Hx) as [Hnx|Hinf].
  - apply (rounds0_mono (val x / val q) (val x / val p)).
    + apply div_rounds0; assumption.
    + apply div_rounds0; assumption.
    + pose proof (fin_pos_val p Hp). pose proof (B2R_nonneg _ Hnx) as H0.
      fold (val x) in H0. unfold Rdiv.
      apply Rmult_le_compat_l; [assumption|]. apply Rinv_le_contravar; lra.
  - rewrite (div_inf_l x p Hinf Hp), (div_inf_l x q Hinf Hq). reflexivity.
Qed.

(** Multiplying by a larger nonnegative double gives no less. *)
Lemma mul_mono_r d w1 w2 :
  fin_nonneg d = true -> fin_nonneg w1 = true -> fin_nonneg w2 = true ->
  val w1 <= val w2 -> (d * w1 <=? d * w2)%float = true.
Proof.
  intros Hd H1 H2 Hle. rewrite FloatAxioms.leb_spec.
  pose proof (B2R_nonneg _ Hd) as Hd0. fold (val d) in Hd0.
  pose proof (B2R_nonneg _ H1) as H10. fold (val w1) in H10.
  assert (forall w, fin_nonneg w = true -> fin_pos w = false ->
            exists s, Prim2SF (d * w) = S754_zero s) as Hzero.
  { intros w Hw Hp. unfold fin_nonneg, fin_pos in *.
    rewrite FloatAxioms.mul_spec. unfold SF64mul.
    destruct (Prim2SF w) as [?|?| |[] ? ?]; try discriminate.
    destruct (Prim2SF d) as [?|?| |[] ? ?]; try discriminate; cbn; eauto. }
  destruct (fin_pos w1) eqn:Hp1.
  - assert (fin_pos w2 = true) as Hp2.
    { apply val_pos_fin_pos; [assumption|]. pose proof (fin_pos_val w1 Hp1). lra. }
    apply (rounds0_mono (val d * val w1) (val d * val w2)).
    + apply mul_rounds0; assumption.
    + apply mul_rounds0; assumption.
    + nra.
  - destruct (Hzero w1 H1 Hp1) as (s & Hs). rewrite Hs.
    pose proof (mul_ext d w2 Hd H2) as He. unfold ext_nonneg in He.
    destruct (Prim2SF (d * w2)) as [?|[]| |[] ? ?]; try discriminate;
      destruct s; reflexivity.
Qed.

(** Adding a larger correction gives no less. *)
Lemma add_mono_r d s t :
  fin_nonneg d = true -> ext_nonneg s = true -> ext_nonneg t = true ->
  (s <=? t)%float = true -> (d + s <=? d + t)%float = true.
Proof.
  intros Hd Hs Ht Hle. rewrite FloatAxioms.leb_spec.
  pose proof (B2R_nonneg _ Hd) as Hd0. fold (val d) in Hd0.
  destruct (ext_cases t Ht) as [Hnt|Hinf].
  - pose proof (leb_fin_of_ext s t Hs Hnt Hle) as Hns.
    apply leb_val in Hle; try assumption.
    pose proof (B2R_nonneg _ Hns) as Hs0. fold (val s) in Hs0.
    apply (rounds0_mono (val d + val s) (val d + val t)).
    + apply add_rounds0; try (apply fin_nonneg_any; assumption). lra.
    + apply add_rounds0; try (apply fin_nonneg_any; assumption). lra.
    + lra.
  - assert (Prim2SF (d + t) = S754_infinity false) as ->.
    { unfold fin_nonneg in Hd. rewrite FloatAxioms.add_spec, Hinf. unfold SF64add.
      destruct (Prim2SF d) as [?|?| |[] ? ?]; try discriminate; reflexivity. }
    apply ext_leb_inf.
    destruct (ext_cases s Hs) as [Hns|Hsinf].
    + eapply rounds_ext. apply add_rounds0; try (apply fin_nonneg_any; assumption).
      pose proof (B2R_nonneg _ Hns) as Hs0. fold (val s) in Hs0. lra.
    + unfold ext_nonneg, fin_nonneg in *. rewrite FloatAxioms.add_spec, Hsinf.
      unfold SF64add.
      destruct (Prim2SF d) as [?|?| |[] ? ?]; try discriminate; reflexivity.
Qed.

(** X11: with the wind the correction is never larger than against it: for
    the same distance, wind and angle, [step_3] of "tailwind" is at most
    [step_3] of "headwind". *)
Theorem tailwind_corrects_less :
  forall float_str float_4f distance wind angle,
    is_finite distance = true -> (0 <=? distance)%float = true ->
    is_finite wind = true -> (0 <=? wind)%float = true ->
    is_finite angle = true ->
    exists against along step_3_against step_3_along,
      calculate_steps float_str float_4f distance wind angle "headwind" = Ok against /\
      calculate_steps float_str float_4f distance wind angle "tailwind" = Ok along /\
      dict_field against "step_3" "result" = Some (PFloat step_3_against) /\
      dict_field along "step_3" "result" = Some (PFloat step_3_along) /\
      (step_3_along <=? step_3_against)%float = true.
Proof.
  intros float_str float_4f d w angle Hfd Hd Hfw Hw Hfin.
  destruct (calculate_steps_run float_str float_4f d w angle "headwind" Hfin
              (or_introl eq_refl)) as (f & Hcaf & Hr & Hph & Hh).
  destruct (calculate_steps_run float_str float_4f d w angle "tailwind" Hfin
              (or_intror eq_refl)) as (f' & Hcaf' & _ & Hpt & Ht).
  assert (f' = f) as -> by congruence.
  cbv zeta in Hh, Ht, Hph, Hpt.
  change (eq_nocase "headwind" "tailwind") with false in Hh, Hph.
  change (eq_nocase "tailwind" "tailwind") with true in Ht, Hpt.
  cbv iota in Hh, Ht, Hph, Hpt.
  do 4 eexists. split; [exact Hh|]. split; [exact Ht|].
  split; [reflexivity|]. split; [reflexivity|].
  pose proof (nonneg_from_leb d Hd Hfd) as Hnd.
  pose proof (nonneg_from_leb w Hw Hfw) as Hnw.
  apply div_mono_r; try assumption; [apply mul_ext; assumption|].
  pose proof (in_range_floor_pos f Hr) as Hfp.
  apply (rounds0_val_le (val 180%float / val f) (val 225%float / val f)).
  - apply div_rounds0; [reflexivity|assumption].
  - apply div_rounds0; [reflexivity|assumption].
  - pose proof (fin_pos_val f Hfp). unfold Rdiv.
    apply Rmult_le_compat_r; [left; apply Rinv_0_lt_compat; lra|].
    rewrite val_180. replace (val 225%float) with 225 by (symmetry; val_const 225%float).
    lra.
  - apply fin_pos_nonneg; assumption.
  - apply fin_pos_nonneg; assumption.
Qed.

(** [tailwind_corrects_less] on a concrete input. *)
Lemma tailwind_corrects_less_witness :
  is_finite 150 = true /\ (0 <=? 150)%float = true /\
  is_finite 12 = true /\ (0 <=? 12)%float = true /\ is_finite 45 = true /\
  exists against along step_3_against step_3_along,
    calculate_steps no_render no_render 150 12 45 "headwind" = Ok against /\
    calculate_steps no_render no_render 150 12 45 "tailwind" = Ok along /\
    dict_field against "step_3" "result" = Some (PFloat step_3_against) /\
    dict_field along "step_3" "result" = Some (PFloat step_3_along) /\
    (step_3_along <=? step_3_against)%float = true.
Proof.
  repeat (split; [reflexivity|]).
  exact (tailwind_corrects_less no_render no_render 150 12 45
           eq_refl eq_refl eq_refl eq_refl eq_refl).
Defined.

(** X12: more wind never corrects less: for a distance that is finite and
    not negative and a finite angle, [step_3] does not fall when the wind
    grows, and against the wind neither does the adjusted distance. *)
Theorem correction_grows_with_the_wind :
  forall float_str float_4f distance wind wind' angle wind_direction,
    is_finite distance = true -> (0 <=? distance)%float = true ->
    (0 <=? wind)%float = true -> (wind <=? wind')%float = true ->
    is_finite wind' = true -> is_finite angle = true ->
    eq_nocase wind_direction "headwind" = true \/
    eq_nocase wind_direction "tailwind" = true ->
    exists res res' step_3 step_3' adjusted adjusted',
      calculate_steps float_str float_4f distance wind angle wind_direction = Ok res /\
      calculate_steps float_str float_4f distance wind' angle wind_direction = Ok res' /\
      dict_field res "step_3" "result" = Some (PFloat step_3) /\
      dict_field res' "step_3" "result" = Some (PFloat step_3') /\
      dict_get res "adjusted_distance" = Some (PFloat adjusted) /\
      dict_get res' "adjusted_distance" = Some (PFloat adjusted') /\
      (step_3 <=? step_3')%float = true /\
      (eq_nocase wind_direction "headwind" = true ->
       (adjusted <=? adjusted')%float = true).
Proof.
  intros float_str float_4f d w w' angle wd Hfd Hd Hw Hww Hfw' Hfin Hdir.
  destruct (calculate_steps_run float_str float_4f d w angle wd Hfin Hdir)
    as (f & Hcaf & Hr & Hp & Hrun).
  destruct (calculate_steps_run float_str float_4f d w' angle wd Hfin Hdir)
    as (f' & Hcaf' & _ & _ & Hrun').
  assert (f' = f) as -> by congruence.
  cbv zeta in Hrun, Hrun', Hp.
  do 6 eexists. split; [exact Hrun|]. split; [exact Hrun'|].
  do 4 (split; [reflexivity|]).
  pose proof (nonneg_from_leb d Hd Hfd) as Hnd.
  assert (fin_nonneg w' = true) as Hnw'.
  { apply nonneg_from_leb; [|assumption].
    assert (ext_nonneg w = true) as Ew by (eapply leb_ext; [|exact Hw]; reflexivity).
    pose proof (leb_ext w w' Ew Hww) as Ew'.
    destruct (ext_cases w' Ew') as [H|H].
    - apply leb_val; [reflexivity|assumption|]. rewrite val_0.
      apply B2R_nonneg. exact H.
    - rewrite FloatAxioms.leb_spec, H. reflexivity. }
  assert (fin_nonneg w = true) as Hnw.
  { eapply ext_leb_fin; [eapply leb_ext; [|exact Hw]; reflexivity|exact Hww|assumption]. }
  apply leb_val in Hww; try assumption.
  pose proof (mul_mono_r d w w' Hnd Hnw Hnw' Hww) as Hmul.
  pose proof (mul_ext d w Hnd Hnw) as E1. pose proof (mul_ext d w' Hnd Hnw') as E2.
  assert (forall p, fin_pos p = true ->
            (d * w / p <=? d * w' / p)%float = true) as Hdiv
      by (intros p Hpp; apply div_mono_l; assumption).
  split.
  - apply Hdiv. exact Hp.
  - intros Hh. rewrite (head_not_tail _ Hh) in *.
    apply add_mono_r; try assumption; try (apply div_ext; assumption).
    apply Hdiv. exact Hp.
Qed.

(** [correction_grows_with_the_wind] on a concrete input. *)
Lemma correction_grows_with_the_wind_witness :
  is_finite 150 = true /\ (0 <=? 150)%float = true /\
  (0 <=? 5)%float = true /\ (5 <=? 12.5)%float = true /\
  is_finite 12.5 = true /\ is_finite 45 = true /\
  eq_nocase "headwind" "headwind" = true /\
  exists res res' step_3 step_3' adjusted adjusted',
    calculate_steps no_render no_render 150 5 45 "headwind" = Ok res /\
    calculate_steps no_render no_render 150 12.5 45 "headwind" = Ok res' /\
    dict_field res "step_3" "result" = Some (PFloat step_3) /\
    dict_field res' "step_3" "result" = Some (PFloat step_3') /\
    dict_get res "adjusted_distance" = Some (PFloat adjusted) /\
    dict_get res' "adjusted_distance" = Some (PFloat adjusted') /\
    (step_3 <=? step_3')%float = true /\
    (eq_nocase "headwind" "headwind" = true ->
     (adjusted <=? adjusted')%float = true).
Proof.
  repeat (split; [reflexivity|]).
  exact (correction_grows_with_the_wind no_render no_render 150 5 12.5 45 "headwind"
           eq_refl eq_refl eq_refl eq_refl eq_refl eq_refl (or_introl eq_refl)).
Defined.

(** ** The results block *)

(** A recognised direction always yields an adjusted distance, whatever
    the doubles. *)
Lemma calculate_steps_adjusted float_str float_4f distance wind angle wd :
  eq_nocase wd "headwind" = true \/ eq_nocase wd "tailwind" = true ->
  exists res adjusted_distance,
    calculate_steps float_str float_4f distance wind angle wd = Ok res /\
    dict_has res "error" = false /\
    dict_get res "adjusted_distance" = Some (PFloat adjusted_distance).
Proof.
  intros Hdir. destruct (is_finite angle) eqn:Hfin.
  - destruct (calculate_steps_run float_str float_4f distance wind angle wd
                Hfin Hdir) as (f & _ & _ & _ & Hrun).
    cbv zeta in Hrun. eexists. eexists. split; [exact Hrun|].
    split; reflexivity.
  - destruct (calculate_steps_nan float_str float_4f distance wind angle wd
                (calculate_angle_factor_not_finite angle Hfin) Hdir)
      as (res & Hres & _ & Hhas & _ & _ & Hadj).
    exists res, nan. repeat split; assumption.
Qed.

(** The block on a result that holds an adjusted distance. *)
Lemma main_submit_on_trace float_str float_4f float_2f float_1f float_of_str
    distance wind angle wd res adjusted_distance :
  calculate_steps float_str float_4f distance wind angle wd = Ok res ->
  dict_has res "error" = false ->
  dict_get res "adjusted_distance" = Some (PFloat adjusted_distance) ->
  main_submit float_str float_4f float_2f float_1f float_of_str
    distance wind angle wd =
  let shown :=
    [St_markdown "---";
     St_success ("### Adjusted Distance: " ++ float_2f adjusted_distance ++ " yards")] in
  if (distance =? 0)%float then
    (shown, inr (Arith (ZeroDivisionError "float division by zero")))
  else
    let difference := abs (adjusted_distance - distance)%float in
    let percent_change := (difference / distance * 100)%float in
    (shown ++
     [St_info
        (LF ++ "            **Original Distance:** " ++ float_2f distance
            ++ " yards  " ++ LF
            ++ "            **Adjustment:** " ++ float_2f difference
            ++ " yards (" ++ float_1f percent_change ++ "%)  " ++ LF
            ++ "            **Adjusted Distance:** " ++ float_2f adjusted_distance
            ++ " yards" ++ LF ++ "            ");
      St_subheader "-𝘔𝘢𝘥𝘦 𝘣𝘺 𝘎𝘢𝘣𝘦⛳"],
     inl tt).
Proof.
  intros Hres Hhas Hadj. unfold main_submit. rewrite Hres.
  cbn [page_of page_bind page_ret]. rewrite Hhas.
  unfold subscript. rewrite Hadj.
  cbn [page_bind page_ret page_call py_float app].
  unfold PyFloat.truediv. destruct (distance =? 0)%float; reflexivity.
Qed.

(** X14: a distance of zero, which the form allows, stops the results block
    with [ZeroDivisionError] at the percentage, after the rule and the
    adjusted distance are shown and before the comparison is. *)
Theorem main_submit_zero_distance_raises :
  forall float_str float_4f float_2f float_1f float_of_str
         distance wind angle wind_direction,
    (distance =? 0)%float = true ->
    eq_nocase wind_direction "headwind" = true \/
    eq_nocase wind_direction "tailwind" = true ->
    exists res adjusted_distance,
      calculate_steps float_str float_4f distance wind angle wind_direction = Ok res /\
      dict_get res "adjusted_distance" = Some (PFloat adjusted_distance) /\
      main_submit float_str float_4f float_2f float_1f float_of_str
        distance wind angle wind_direction =
      ([St_markdown "---";
        St_success ("### Adjusted Distance: " ++ float_2f adjusted_distance
                      ++ " yards")],
       inr (Arith (ZeroDivisionError "float division by zero"))).
Proof.
  intros float_str float_4f float_2f float_1f float_of_str distance wind angle wd
    Hz Hdir.
  destruct (calculate_steps_adjusted float_str float_4f distance wind angle wd Hdir)
    as (res & adj & Hres & Hhas & Hadj).
  exists res, adj. split; [assumption|]. split; [assumption|].
  rewrite (main_submit_on_trace _ _ float_2f float_1f float_of_str _ _ _ _ _ _
             Hres Hhas Hadj).
  cbv zeta. rewrite Hz. reflexivity.
Qed.

(** [main_submit_zero_distance_raises] on a concrete input. *)
Lemma main_submit_zero_distance_raises_witness :
  (0 =? 0)%float = true /\ eq_nocase "headwind" "headwind" = true /\
  exists res adjusted_distance,
    calculate_steps no_render no_render 0 15 0 "headwind" = Ok res /\
    dict_get res "adjusted_distance" = Some (PFloat adjusted_distance) /\
    main_submit no_render no_render no_render no_render (fun _ => None)
      0 15 0 "headwind" =
    ([St_markdown "---";
      St_success ("### Adjusted Distance: " ++ no_render adjusted_distance
                    ++ " yards")],
     inr (Arith (ZeroDivisionError "float division by zero"))).
Proof.
  split; [reflexivity|]. split; [reflexivity|].
  exact (main_submit_zero_distance_raises no_render no_render no_render no_render
           (fun _ => None) 0%float 15%float 0%float "headwind" eq_refl
           (or_introl eq_refl)).
Defined.

(** X15: for a distance other than zero and a recognised direction the
    results block runs to its end, whatever the doubles: it shows the rule,
    the adjusted distance, the comparison with the absolute difference and
    its percentage of the distance, and the signature, and never an error. *)
Theorem main_submit_completes :
  forall float_str float_4f float_2f float_1f float_of_str
         distance wind angle wind_direction,
    (distance =? 0)%float = false ->
    eq_nocase wind_direction "headwind" = true \/
    eq_nocase wind_direction "tailwind" = true ->
    exists res adjusted_distance,
      calculate_steps float_str float_4f distance wind angle wind_direction = Ok res /\
      dict_get res "adjusted_distance" = Some (PFloat adjusted_distance) /\
      let difference := abs (adjusted_distance - distance)%float in
      let percent_change := (difference / distance * 100)%float in
      main_submit float_str float_4f float_2f float_1f float_of_str
        distance wind angle wind_direction =
      ([St_markdown "---";
        St_success ("### Adjusted Distance: " ++ float_2f adjusted_distance
                      ++ " yards");
        St_info
          (LF ++ "            **Original Distance:** " ++ float_2f distance
              ++ " yards  " ++ LF
              ++ "            **Adjustment:** " ++ float_2f difference
              ++ " yards (" ++ float_1f percent_change ++ "%)  " ++ LF
              ++ "            **Adjusted Distance:** " ++ float_2f adjusted_distance
              ++ " yards" ++ LF ++ "            ");
        St_subheader "-𝘔𝘢𝘥𝘦 𝘣𝘺 𝘎𝘢𝘣𝘦⛳"],
       inl tt).
Proof.
  intros float_str float_4f float_2f float_1f float_of_str distance wind angle wd
    Hz Hdir.
  destruct (calculate_steps_adjusted float_str float_4f distance wind angle wd Hdir)
    as (res & adj & Hres & Hhas & Hadj).
  exists res, adj. split; [assumption|]. split; [assumption|].
  rewrite (main_submit_on_trace _ _ float_2f float_1f float_of_str _ _ _ _ _ _
             Hres Hhas Hadj).
  cbv zeta. rewrite Hz. reflexivity.
Qed.

(** [main_submit_completes] on a concrete input. *)
Lemma main_submit_completes_witness :
  (103 =? 0)%float = false /\ eq_nocase "tailwind" "tailwind" = true /\
  exists res adjusted_distance,
    calculate_steps no_render no_render 103 15 0 "tailwind" = Ok res /\
    dict_get res "adjusted_distance" = Some (PFloat adjusted_distance) /\
    main_submit no_render no_render no_render no_render (fun _ => None)
      103 15 0 "tailwind" =
    ([St_markdown "---";
      St_success ("### Adjusted Distance: " ++ no_render adjusted_distance
                    ++ " yards");
      St_info
        (LF ++ "            **Original Distance:** " ++ no_render 103%float
            ++ " yards  " ++ LF
            ++ "            **Adjustment:** "
            ++ no_render (abs (adjusted_distance - 103))%float
            ++ " yards ("
            ++ no_render (abs (adjusted_distance - 103) / 103 * 100)%float
            ++ "%)  " ++ LF
            ++ "            **Adjusted Distance:** " ++ no_render adjusted_distance
            ++ " yards" ++ LF ++ "            ");
      St_subheader "-𝘔𝘢𝘥𝘦 𝘣𝘺 𝘎𝘢𝘣𝘦⛳"],
     inl tt).
Proof.
  split; [reflexivity|]. split; [reflexivity|].
  exact (main_submit_completes no_render no_render no_render no_render
           (fun _ => None) 103%float 15%float 0%float "tailwind" eq_refl
           (or_intror eq_refl)).
Defined.

(** X16: a direction that is not recognised makes the results block show
    the message of the failure value with [st.error], and nothing else. *)
Theorem main_submit_reports_the_direction :
  forall float_str float_4f float_2f float_1f float_of_str
         distance wind angle wind_direction,
    eq_nocase wind_direction "headwind" = false ->
    eq_nocase wind_direction "tailwind" = false ->
    main_submit float_str float_4f float_2f float_1f float_of_str
      distance wind angle wind_direction =
    ([St_error
        (PStr "Invalid wind direction. Please use 'headwind' or 'tailwind'.")],
     inl tt).
Proof.
  intros float_str float_4f float_2f float_1f float_of_str distance wind angle wd
    Hh Ht.
  destruct (calculate_angle_factor_total angle) as (f & Hf).
  unfold main_submit, calculate_steps. rewrite Hf. cbn [bind].
  rewrite lower_tailwind, lower_headwind, Ht, Hh. reflexivity.
Qed.

(** [main_submit_reports_the_direction] on a concrete input. *)
Lemma main_submit_reports_the_direction_witness :
  eq_nocase "crosswind" "headwind" = false /\
  eq_nocase "crosswind" "tailwind" = false /\
  main_submit no_render no_render no_render no_render (fun _ => None)
    103 15 0 "crosswind" =
  ([St_error
      (PStr "Invalid wind direction. Please use 'headwind' or 'tailwind'.")],
   inl tt).
Proof.
  split; [reflexivity|]. split; [reflexivity|].
  exact (main_submit_reports_the_direction no_render no_render no_render no_render
           (fun _ => None) 103%float 15%float 0%float "crosswind" eq_refl eq_refl).
Defined.
